(** * active-recall-bot: quality ledger, selection, validation and debias routine

    A shallow embedding of the core of the bot: the SQLite-backed store of
    [db.ts], the second stage of the generation pipeline of [ai.ts] and the
    answer-shuffling start-up batch of the bot's entry file; then the user
    tables and the listing queries of [db.ts], the commands and callbacks of
    the entry file, the asking and judging of a question, and [escapeHtml].

    Modelling conventions.
    - A table with an integer row id ([questions]) is the list of its rows in
      row-id order; tables whose primary key is the pair (user_id,
      question_id) ([votes], [user_progress]) are finite maps keyed by that
      pair.
    - SQLite INTEGER and JavaScript integral numbers are [Z].  SQLite REAL
      values are exact rationals [Q]: rounding of doubles is not modelled.
    - The [options] column holds [JSON.stringify] of a string array and is
      identified with that array.
    - Values drawn from the environment ([Date.now()], [RANDOM()],
      [Math.random()], replies of the completion service, failures of the
      renderer or of the database) are explicit arguments. *)

From Stdlib Require Import ZArith QArith Qround Lia.
From Stdlib Require DecimalString.
From stdpp Require Import gmap strings list sorting.

Local Open Scope Z_scope.

(** ** The store of [db.ts] *)

Module Db.

(** A row of table [questions]. *)
Record Question := mkQuestion {
  id : Z;
  study_key : string;
  question_text : string;
  options : list string;
  correct_index : Z;
  created_at : Z;
  thumbs_up : Z;
  thumbs_down : Z
}.

(** The database: [questions] in row-id order, the AUTOINCREMENT counter
    that SQLite keeps for it (the largest row id ever handed out), and the
    two pair-keyed tables. *)
Record Store := mkStore {
  questions : list Question;
  seq : Z;
  votes : gmap (Z * Z) Z;
  user_progress : gmap (Z * Z) Z
}.

Definition empty : Store := mkStore [] 0 ∅ ∅.

Definition has_id (qid : Z) (q : Question) : bool := bool_decide (id q = qid).
Definition in_key (k : string) (q : Question) : bool := bool_decide (study_key q = k).

Definition set_counts (up down : Z) (q : Question) : Question :=
  mkQuestion (id q) (study_key q) (question_text q) (options q)
             (correct_index q) (created_at q) up down.

Definition set_options (opts : list string) (ci : Z) (q : Question) : Question :=
  mkQuestion (id q) (study_key q) (question_text q) opts ci
             (created_at q) (thumbs_up q) (thumbs_down q).

(** [UPDATE questions SET ... WHERE id = $qid]. *)
Definition update_id (qid : Z) (f : Question → Question) (qs : list Question)
  : list Question :=
  map (λ q, if has_id qid q then f q else q) qs.

Definition set_questions (qs : list Question) (st : Store) : Store :=
  mkStore qs (seq st) (votes st) (user_progress st).

(** [saveQuestion]: INSERT ... RETURNING id.  The new row id is one more
    than the largest id ever used; counters take their DEFAULT 0;
    [created_at] defaults to the insertion time [now]. *)
Definition saveQuestion (now : Z) (studyKey question : string)
    (opts : list string) (correctIndex : Z) (st : Store) : Z * Store :=
  let new_id := seq st + 1 in
  (new_id,
   mkStore (questions st ++ [mkQuestion new_id studyKey question opts correctIndex now 0 0])
           new_id (votes st) (user_progress st)).

(** [clearQuestions]: DELETE FROM questions WHERE study_key = $studyKey. *)
Definition clearQuestions (studyKey : string) (st : Store) : Store :=
  set_questions (filter (λ q, study_key q ≠ studyKey) (questions st)) st.

Definition voteVal (isUpvote : bool) : Z := if isUpvote then 1 else -1.

(** [addVote]. *)
Definition addVote (userId questionId : Z) (isUpvote : bool) (st : Store) : Store :=
  let v := voteVal isUpvote in
  match votes st !! (userId, questionId) with
  | Some existing =>
      if decide (existing = v) then st
      else
        mkStore
          (update_id questionId
             (λ q, if isUpvote
                   then set_counts (thumbs_up q + 1) (thumbs_down q - 1) q
                   else set_counts (thumbs_up q - 1) (thumbs_down q + 1) q)
             (questions st))
          (seq st)
          (<[(userId, questionId) := v]> (votes st))
          (user_progress st)
  | None =>
      mkStore
        (update_id questionId
           (λ q, if isUpvote
                 then set_counts (thumbs_up q + 1) (thumbs_down q) q
                 else set_counts (thumbs_up q) (thumbs_down q + 1) q)
           (questions st))
        (seq st)
        (<[(userId, questionId) := v]> (votes st))
        (user_progress st)
  end.

(** [getQuestionStats]: the counters of the row, or zeros without one. *)
Definition getQuestionStats (questionId : Z) (st : Store) : Z * Z :=
  match List.find (has_id questionId) (questions st) with
  | Some q => (thumbs_up q, thumbs_down q)
  | None => (0, 0)
  end.

Definition getQuestionById (questionId : Z) (st : Store) : option Question :=
  List.find (has_id questionId) (questions st).

(** [getAllQuestionsRaw]. *)
Definition getAllQuestionsRaw (st : Store) : list Question := questions st.

(** [updateQuestionOptions]: one UPDATE writing both columns. *)
Definition updateQuestionOptions (qid : Z) (opts : list string) (correctIndex : Z)
    (st : Store) : Store :=
  set_questions (update_id qid (set_options opts correctIndex) (questions st)) st.

(** [deleteQuestion]: three DELETE statements. *)
Definition deleteQuestion (questionId : Z) (st : Store) : Store :=
  mkStore (filter (λ q, id q ≠ questionId) (questions st))
          (seq st)
          (filter (λ kv, kv.1.2 ≠ questionId) (votes st))
          (filter (λ kv, kv.1.2 ≠ questionId) (user_progress st)).

(** The SQL expression shared by [getQuestions] (column [rating]) and
    [getRandomQuestion] (column [weight]):
    (CAST(thumbs_up AS REAL) + 1.0)
      / (CAST(thumbs_up AS REAL) + CAST(thumbs_down AS REAL) + 2.0). *)
Definition rating (up down : Z) : Q :=
  ((inject_Z up + 1) / (inject_Z up + inject_Z down + 2))%Q.

Definition weight (q : Question) : Q := rating (thumbs_up q) (thumbs_down q).

(** ORDER BY weight DESC, RANDOM(): a row paired with its RANDOM() value
    comes no later than another when its weight is larger, or the weights
    are equal and its random value is not larger. *)
Definition by_weight_random (x y : Question * Z) : Prop :=
  match (weight y.1 ?= weight x.1)%Q with
  | Lt => True
  | Eq => x.2 ≤ y.2
  | Gt => False
  end.

#[global] Instance by_weight_random_dec x y : Decision (by_weight_random x y).
Proof. unfold by_weight_random. destruct (_ ?= _)%Q; apply _. Defined.

(** ORDER BY up.last_used_at ASC. *)
Definition by_last_used (x y : Question * Z) : Prop := x.2 ≤ y.2.

#[global] Instance by_last_used_dec x y : Decision (by_last_used x y).
Proof. unfold by_last_used. apply _. Defined.

(** Rows of the first query of [getRandomQuestion]: questions of the study
    key that the LEFT JOIN pairs with no [user_progress] row of the user. *)
Definition unused_rows (studyKey : string) (userId : Z) (st : Store) : list Question :=
  filter (λ q, study_key q = studyKey ∧ user_progress st !! (userId, id q) = None)
         (questions st).

(** Rows of the second query: the inner JOIN with the user's progress. *)
Definition used_rows (studyKey : string) (userId : Z) (st : Store)
  : list (Question * Z) :=
  omap (λ q, if in_key studyKey q
             then (λ t, (q, t)) <$> user_progress st !! (userId, id q)
             else None)
       (questions st).

(** The three SELECT ... LIMIT 1 of [getRandomQuestion], tried in turn.
    [rnd i] is the value RANDOM() takes on the i-th row of the first query. *)
Definition select_question (rnd : nat → Z) (studyKey : string) (userId : Z)
    (st : Store) : option Question :=
  match head (merge_sort by_weight_random
                (imap (λ i q, (q, rnd i)) (unused_rows studyKey userId st))) with
  | Some r => Some r.1
  | None =>
      match head (merge_sort by_last_used (used_rows studyKey userId st)) with
      | Some r => Some r.1
      | None => head (filter (λ q, study_key q = studyKey) (questions st))
      end
  end.

(** [getRandomQuestion]: the selected row, if any, has its [user_progress]
    row inserted or updated to [now] (the value of Date.now()) before it is
    returned. *)
Definition getRandomQuestion (rnd : nat → Z) (now : Z) (studyKey : string)
    (userId : Z) (st : Store) : option Question * Store :=
  match select_question rnd studyKey userId st with
  | Some r =>
      (Some r,
       mkStore (questions st) (seq st) (votes st)
               (<[(userId, id r) := now]> (user_progress st)))
  | None => (None, st)
  end.

End Db.

(** ** The validation stage of [ai.ts] *)

Module Ai.

Record GeneratedQuestion := mkGenerated {
  question : string;
  options : list string;
  correct_index : Z
}.

(** A value produced by [JSON.parse]. *)
#[warnings="-register-all"]
Inductive json :=
  | JNull
  | JBool (b : bool)
  | JNum (n : Q)
  | JStr (s : string)
  | JArr (items : list json)
  | JObj (fields : list (string * json)).

(** What awaiting the completion call yields: it throws, or it resolves
    with [choices[0]?.message?.content], which may be undefined. *)
Inductive completion :=
  | Rejected
  | Resolved (content : option string).

(** [s.replace(/pat/g, "")] for a literal, non-empty [pat]: matches are
    found left to right and do not overlap; [skip] counts the characters of
    the current match still to be dropped. *)
Fixpoint remove_all (pat : string) (skip : nat) (s : string) : string :=
  match s with
  | EmptyString => EmptyString
  | String c s' =>
      match skip with
      | S k => remove_all pat k s'
      | O => if String.prefix pat s
             then remove_all pat (String.length pat - 1) s'
             else String c (remove_all pat O s')
      end
  end.

(** [Array.prototype.includes] called with the number [i]: SameValueZero
    holds only for a number of the same value. *)
Definition same_value_zero (i : nat) (v : json) : bool :=
  match v with
  | JNum n => Qeq_bool n (inject_Z (Z.of_nat i))
  | _ => false
  end.

Definition includes (arr : list json) (i : nat) : bool :=
  existsb (same_value_zero i) arr.

(** [arr.filter((_, i) => p(i))], with [i] the index of the first element. *)
Fixpoint filter_index {A} (p : nat → bool) (i : nat) (arr : list A) : list A :=
  match arr with
  | [] => []
  | x :: rest =>
      if p i then x :: filter_index p (S i) rest
      else filter_index p (S i) rest
  end.

Section Pipeline.
(** Built-ins of the runtime: [String.prototype.trim], [JSON.parse]
    ([None] when it throws), and [JSON.parse] of the draft reply followed
    by the unchecked cast to [GeneratedQuestion[]]. *)
Variable trim : string → string.
Variable JSON_parse : string → option json.
Variable JSON_parse_questions : string → option (list GeneratedQuestion).

Definition clean (content : string) : string :=
  trim (remove_all "```" 0 (remove_all "```json" 0 content)).

(** [filterBadQuestions], given the outcome of its completion call. *)
Definition filterBadQuestions (questions : list GeneratedQuestion)
    (reply : completion) : list GeneratedQuestion :=
  if (length questions =? 0)%nat then []
  else
    match reply with
    | Rejected => questions
    | Resolved None => questions
    | Resolved (Some raw) =>
        let content := trim raw in
        if String.eqb content "" then questions
        else
          match JSON_parse (clean content) with
          | None => questions
          | Some (JArr goodIndices) =>
              filter_index (includes goodIndices) 0 questions
          | Some _ => questions
          end
    end.

(** [generateQuestions], given whether the API key is configured and the
    outcomes of the two completion calls; [None] is the thrown Error. *)
Definition generateQuestions (key_set : bool) (draft validation : completion)
  : option (list GeneratedQuestion) :=
  if negb key_set then None
  else
    Some
      match draft with
      | Rejected => []
      | Resolved None => []
      | Resolved (Some raw) =>
          let content := trim raw in
          if String.eqb content "" then []
          else
            match JSON_parse_questions (clean content) with
            | None => []
            | Some initialQuestions =>
                if (length initialQuestions =? 0)%nat then []
                else filterBadQuestions initialQuestions validation
            end
      end.
End Pipeline.

End Ai.

(** ** The handlers and the start-up batch of the bot's entry file *)

Module Bot.
Import Db.

(** [Math.round]: the nearest integer, halves rounded up. *)
Definition Math_round (x : Q) : Z := Qfloor (x + (1 # 2)).

(** The percentage the vote and answer handlers put in the caption:
    [totalVotes > 0 ? Math.round((thumbs_up / totalVotes) * 100) : 0]. *)
Definition ratingPercent (stats : Z * Z) : Z :=
  let totalVotes := stats.1 + stats.2 in
  if 0 <? totalVotes
  then Math_round (inject_Z stats.1 / inject_Z totalVotes * 100)
  else 0.

(** The [vote:] branch of the callback handler: [userId] is
    [context.from?.id], [questionId] the result of [parseInt] ([None] for
    NaN).  Returns the store and the percentage shown, if any. *)
Definition onVote (userId questionId : option Z) (voteType : string) (st : Store)
  : Store * option Z :=
  match userId, questionId with
  | Some u, Some q =>
      if u =? 0 then (st, None)
      else
        let st' := addVote u q (String.eqb voteType "up") st in
        (st', Some (ratingPercent (getQuestionStats q st')))
  | _, _ => (st, None)
  end.

(** Lines written with [console.error]. *)
Inductive LogEntry :=
  | ImageFailed (qid : Z)
  | AnswerLost (qid : Z)
  | RegenerateFailed (qid : Z)
  | ShuffleError.

(** The database together with the image directory (for each question id,
    the text and options its stored image was rendered from) and the error
    log. *)
Record World := mkWorld {
  db : Store;
  images : gmap Z (string * list string);
  errors : list LogEntry
}.

(** The persistence loop of the message handler: every generated question
    is saved as it is, then rendered; a failure of the renderer for the new
    id is logged and the loop goes on. *)
Definition saveGenerated (now : Z) (studyKey : string) (render_throws : Z → bool)
    (generated : list Ai.GeneratedQuestion) (w : World) : World :=
  foldl (λ w q,
           let '(questionId, st') :=
             saveQuestion now studyKey (Ai.question q) (Ai.options q)
                          (Ai.correct_index q) (db w) in
           if render_throws questionId
           then mkWorld st' (images w) (errors w ++ [ImageFailed questionId])
           else mkWorld st' (<[questionId := (Ai.question q, Ai.options q)]> (images w))
                        (errors w))
        w generated.

(** [[options[i], options[j]] = [options[j], options[i]]] for positions
    inside the array (the loop below never leaves it). *)
Definition swap (i j : nat) (opts : list string) : list string :=
  match opts !! i, opts !! j with
  | Some a, Some b => <[j := a]> (<[i := b]> opts)
  | _, _ => opts
  end.

(** The Fisher-Yates loop [for (let i = n - 1; i > 0; i--)], started at [i];
    [random i] is the value of Math.random() in the iteration at [i]. *)
Fixpoint fisher_yates (random : nat → Q) (i : nat) (opts : list string)
  : list string :=
  match i with
  | O => opts
  | S i' =>
      let j := Z.to_nat (Qfloor (random i * inject_Z (Z.of_nat i + 1))) in
      fisher_yates random i' (swap i j opts)
  end.

(** [options[k]] for a number [k]: undefined ([None]) outside the array. *)
Definition at_index (opts : list string) (k : Z) : option string :=
  if 0 <=? k then opts !! Z.to_nat k else None.

Fixpoint indexOf_from (x : string) (from : Z) (opts : list string) : Z :=
  match opts with
  | [] => -1
  | y :: rest => if decide (y = x) then from else indexOf_from x (from + 1) rest
  end.

(** [options.indexOf(x)]; undefined is never found among strings. *)
Definition indexOf (opts : list string) (x : option string) : Z :=
  match x with
  | Some s => indexOf_from s 0 opts
  | None => -1
  end.

(** What the environment does while one question is processed. *)
Record Chance := mkChance {
  random : nat → Q;
  update_throws : bool;
  render_throws : bool
}.

(** How the body of the loop ends: normally (also after [continue]) or with
    an exception that leaves the loop. *)
Inductive flow := Next | Thrown.

(** The body of the shuffle loop for the row [q] read at the start. *)
Definition shuffleQuestion (c : Chance) (q : Question) (w : World) : flow * World :=
  let correctAnswer := at_index (Db.options q) (Db.correct_index q) in
  let opts := fisher_yates (random c) (length (Db.options q) - 1) (Db.options q) in
  let newCorrectIndex := indexOf opts correctAnswer in
  if newCorrectIndex =? -1
  then (Next, mkWorld (db w) (images w) (errors w ++ [AnswerLost (id q)]))
  else if update_throws c then (Thrown, w)
  else
    let st' := updateQuestionOptions (id q) opts newCorrectIndex (db w) in
    if render_throws c
    then (Next, mkWorld st' (images w) (errors w ++ [RegenerateFailed (id q)]))
    else (Next, mkWorld st' (<[id q := (question_text q, opts)]> (images w)) (errors w)).

Fixpoint shuffleLoop (chance : Z → Chance) (qs : list Question) (w : World)
  : flow * World :=
  match qs with
  | [] => (Next, w)
  | q :: rest =>
      match shuffleQuestion (chance (id q)) q w with
      | (Next, w') => shuffleLoop chance rest w'
      | (Thrown, w') => (Thrown, w')
      end
  end.

(** The outer try/catch around the loop: an exception that left the loop is
    logged and nothing else is done. *)
Definition outer_catch (r : flow * World) : World :=
  match r with
  | (Next, w') => w'
  | (Thrown, w') => mkWorld (db w') (images w') (errors w' ++ [ShuffleError])
  end.

(** The start-up block guarded by CLEAN_RIGHT_ANSWERS: the loop over
    [getAllQuestionsRaw()] inside the outer try/catch.  [chance qid] is the
    environment met while question [qid] is processed. *)
Definition cleanRightAnswers (enabled : bool) (chance : Z → Chance) (w : World)
  : World :=
  if enabled
  then outer_catch (shuffleLoop chance (getAllQuestionsRaw (db w)) w)
  else w.

End Bot.

(** ** The user tables and the listing queries of [db.ts] *)

Module Accounts.
Import Db.
Import Stdlib.Strings.Ascii.

(** A row of table [users] without its key: [current_study_key] may be NULL;
    [is_trusted] only ever holds 0 or 1. *)
Record User := mkUser {
  current_study_key : option string;
  is_trusted : bool
}.

(** Tables [users] (keyed by id) and [usernames] (keyed by username). *)
Record Tables := mkTables {
  users : gmap Z User;
  usernames : gmap string Z
}.

Definition no_accounts : Tables := mkTables ∅ ∅.

(** [setUserStudyKey]: INSERT (id, key, 0) ON CONFLICT(id) DO UPDATE SET
    current_study_key = key. *)
Definition setUserStudyKey (userId : Z) (key : string) (t : Tables) : Tables :=
  mkTables
    (<[userId := match users t !! userId with
                 | Some row => mkUser (Some key) (is_trusted row)
                 | None => mkUser (Some key) false
                 end]> (users t))
    (usernames t).

(** [setTrusted]: INSERT (id, is_trusted) ON CONFLICT(id) DO UPDATE SET
    is_trusted. *)
Definition setTrusted (userId : Z) (isTrusted : bool) (t : Tables) : Tables :=
  mkTables
    (<[userId := match users t !! userId with
                 | Some row => mkUser (current_study_key row) isTrusted
                 | None => mkUser None isTrusted
                 end]> (users t))
    (usernames t).

Definition isTrusted (userId : Z) (t : Tables) : bool :=
  match users t !! userId with
  | Some row => is_trusted row
  | None => false
  end.

Definition getUserStudyKey (userId : Z) (t : Tables) : option string :=
  match users t !! userId with
  | Some row => current_study_key row
  | None => None
  end.

(** [s.replace(c, empty)] with a one-character string pattern: only the
    first occurrence goes. *)
Fixpoint remove_first (c : ascii) (s : string) : string :=
  match s with
  | EmptyString => EmptyString
  | String a rest => if Ascii.eqb a c then rest else String a (remove_first c rest)
  end.

Definition saveUsername (userId : Z) (username : string) (t : Tables) : Tables :=
  mkTables (users t) (<[remove_first "@"%char username := userId]> (usernames t)).

Definition getUserIdByUsername (username : string) (t : Tables) : option Z :=
  usernames t !! remove_first "@"%char username.

Definition set_study_key (k : string) (q : Question) : Question :=
  mkQuestion (id q) k (question_text q) (options q) (correct_index q)
             (created_at q) (thumbs_up q) (thumbs_down q).

(** [renameStudyKey]: the two UPDATE statements of the transaction. *)
Definition renameStudyKey (oldKey newKey : string) (d : Store * Tables)
  : Store * Tables :=
  (set_questions
     (map (λ q, if in_key oldKey q then set_study_key newKey q else q)
          (questions d.1))
     d.1,
   mkTables
     ((λ row, if decide (current_study_key row = Some oldKey)
              then mkUser (Some newKey) (is_trusted row)
              else row) <$> users d.2)
     (usernames d.2)).

End Accounts.

Module Catalog.
Import Db.

(** ORDER BY study_key ASC under the BINARY collation: bytewise order. *)
Definition string_le (s1 s2 : string) : Prop := String.leb s1 s2 = true.

#[global] Instance string_le_dec s1 s2 : Decision (string_le s1 s2).
Proof. unfold string_le. apply _. Defined.

(** [getAllStudyKeys]: SELECT DISTINCT study_key ... ORDER BY study_key ASC. *)
Definition getAllStudyKeys (st : Store) : list string :=
  merge_sort string_le (remove_dups (study_key <$> questions st)).

(** [getQuestionCount]. *)
Definition getQuestionCount (studyKey : string) (st : Store) : Z :=
  Z.of_nat (length (filter (λ q, study_key q = studyKey) (questions st))).

(** ORDER BY rating ASC, id DESC. *)
Definition by_rating_id (x y : Question) : Prop :=
  match (weight x ?= weight y)%Q with
  | Lt => True
  | Eq => id y ≤ id x
  | Gt => False
  end.

#[global] Instance by_rating_id_dec x y : Decision (by_rating_id x y).
Proof. unfold by_rating_id. destruct (_ ?= _)%Q; apply _. Defined.

(** LIMIT and OFFSET of SQLite: a negative limit means no limit, a negative
    offset means none. *)
Definition sql_limit {A} (n : Z) (rows : list A) : list A :=
  if n <? 0 then rows else take (Z.to_nat n) rows.

Definition sql_offset {A} (n : Z) (rows : list A) : list A :=
  drop (Z.to_nat n) rows.

(** The rows of the study key in the order of [getQuestions]. *)
Definition ordered_rows (studyKey : string) (st : Store) : list Question :=
  merge_sort by_rating_id (filter (λ q, study_key q = studyKey) (questions st)).

(** What [getQuestions] returns; [totalPages] is [None] when
    [Math.ceil(total / pageSize)] is not a finite number ([pageSize] 0). *)
Record QuestionPage := mkPage {
  page_questions : list Question;
  total : Z;
  totalPages : option Z
}.

Definition getQuestions (studyKey : string) (page pageSize : Z) (st : Store)
  : QuestionPage :=
  let offset := (page - 1) * pageSize in
  let total := Z.of_nat (length (filter (λ q, study_key q = studyKey) (questions st))) in
  mkPage (sql_limit pageSize (sql_offset offset (ordered_rows studyKey st)))
         total
         (if pageSize =? 0 then None
          else Some (Qceiling (inject_Z total / inject_Z pageSize))).

End Catalog.

(** ** [escapeHtml] *)

Module Html.
Import Stdlib.Strings.Ascii.

(** [s.replace(/c/g, r)] for a one-character pattern. *)
Fixpoint replace_char (c : ascii) (r : string) (s : string) : string :=
  match s with
  | EmptyString => EmptyString
  | String a rest =>
      if Ascii.eqb a c then r ++ replace_char c r rest
      else String a (replace_char c r rest)
  end.

(** The double quote character. *)
Definition dquote : ascii := "034"%char.

(** [escapeHtml], the same in the bot's entry file and in the renderer:
    five global replacements, the ampersand first.  Strings are their UTF-8
    bytes; the five characters are ASCII and so never part of a longer
    character. *)
Definition escapeHtml (unsafe : string) : string :=
  replace_char "'"%char "&#039;"
    (replace_char dquote "&quot;"
       (replace_char ">"%char "&gt;"
          (replace_char "<"%char "&lt;"
             (replace_char "&"%char "&amp;" unsafe)))).

End Html.

(** ** Commands and callbacks of the bot's entry file *)

Module Handlers.
Import Db Accounts Catalog.
Import Stdlib.Strings.Ascii.

(** [s.split(c)] for a one-character separator, as the first piece and the
    pieces after it: the result of [split] is never empty. *)
Fixpoint split_pieces (c : ascii) (s : string) : string * list string :=
  match s with
  | EmptyString => (EmptyString, [])
  | String a rest =>
      let '(piece, more) := split_pieces c rest in
      if Ascii.eqb a c then (EmptyString, piece :: more)
      else (String a piece, more)
  end.

Definition split (c : ascii) (s : string) : list string :=
  let '(piece, more) := split_pieces c s in piece :: more.

(** The middleware: an update without a sender id is dropped ([None]);
    otherwise the sender's username, when there is one, is recorded.  An
    absent or empty username is [None]. *)
Definition middleware (fromId : option Z) (username : option string) (t : Tables)
  : option Tables :=
  match fromId with
  | None => None
  | Some u =>
      if u =? 0 then None
      else Some match username with
                | Some name => if String.eqb name "" then t else saveUsername u name t
                | None => t
                end
  end.

(** Answers of the /add and /remove commands. *)
Inductive TrustReply :=
  | NotAdmin
  | TrustUsage
  | UnknownTarget
  | TrustSet (targetId : Z).

Section Commands.
(** [parseInt] of the runtime ([None] for NaN) and the configured admin id. *)
Variable parseInt : string → option Z.
Variable adminId : Z.

(** The /add ([grant] true) and /remove ([grant] false) commands. *)
Definition trustCommand (grant : bool) (fromId : option Z) (text : option string)
    (t : Tables) : Tables * TrustReply :=
  if bool_decide (fromId = Some adminId) then
    let args := match text with Some s => split " "%char s | None => [] end in
    match args !! 1%nat with
    | None => (t, TrustUsage)
    | Some target =>
        if String.eqb target "" then (t, TrustUsage)
        else
          let targetId :=
            if String.prefix "@" target then getUserIdByUsername target t
            else parseInt target in
          match targetId with
          | None => (t, UnknownTarget)
          | Some n =>
              if n =? 0 then (t, UnknownTarget)
              else (setTrusted n grant t, TrustSet n)
          end
    end
  else (t, NotAdmin).

(** The /start command: the first study key, if any, becomes the sender's
    current one; the keys listed on the keyboard are returned. *)
Definition startCommand (fromId : option Z) (st : Store) (t : Tables)
  : Tables * option (list string) :=
  match fromId with
  | None => (t, None)
  | Some u =>
      if u =? 0 then (t, None)
      else
        let keys := getAllStudyKeys st in
        (match keys with
         | k :: _ => setUserStudyKey u k t
         | [] => t
         end, Some keys)
  end.

(** The /study command; the key is [text.split(" ").slice(1).join(" ")].
    Returns the key that was set, if any. *)
Definition studyCommand (fromId : option Z) (text : option string) (t : Tables)
  : Tables * option string :=
  match text with
  | None => (t, None)
  | Some s =>
      let key := String.concat " " (tail (split " "%char s)) in
      if String.eqb key "" then (t, None)
      else (setUserStudyKey (default 0 fromId) key t, Some key)
  end.

(** The callback data put on the buttons. *)
Definition cleanData (studyKey action : string) : string :=
  "clean:" ++ studyKey ++ ":" ++ action.

Definition studySelectData (key : string) : string := "study_select:" ++ key.

(** The [clean:] branch of the callback handler. *)
Definition cleanCallback (data : string) (st : Store) : Store :=
  if String.prefix "clean:" data then
    let parts := split ":"%char data in
    match parts !! 1%nat, parts !! 2%nat with
    | Some studyKey, Some action =>
        if String.eqb action "confirm" then clearQuestions studyKey st else st
    | _, _ => st
    end
  else st.

(** The [study_select:] branch of the callback handler. *)
Definition studySelectCallback (data : string) (fromId : option Z) (t : Tables)
  : Tables :=
  if String.prefix "study_select:" data then
    match split ":"%char data !! 1%nat with
    | Some key =>
        if String.eqb key "" then t
        else setUserStudyKey (default 0 fromId) key t
    | None => t
    end
  else t.

(** The [del:] branch of the callback handler up to the deletion; the id is
    [parseInt(parts[1])], and a NaN id matches no row. *)
Definition deleteCallback (data : string) (fromId : option Z) (st : Store) : Store :=
  if String.prefix "del:" data then
    if bool_decide (fromId = Some adminId) then
      match split ":"%char data !! 1%nat with
      | Some part =>
          match parseInt part with
          | Some qId => deleteQuestion qId st
          | None => st
          end
      | None => st
      end
    else st
  else st.

(** The message handler: [generated] is what [generateQuestions] yields for
    the text ([None] when it throws). *)
Definition messageHandler (fromId : option Z) (text : option string)
    (generated : option (list Ai.GeneratedQuestion)) (now : Z)
    (render_throws : Z → bool) (t : Tables) (w : Bot.World) : Bot.World :=
  match text, fromId with
  | Some s, Some u =>
      if String.eqb s "" || String.prefix "/" s || (u =? 0) then w
      else if negb (isTrusted u t || (u =? adminId)) then w
      else
        match getUserStudyKey u t with
        | None => w
        | Some studyKey =>
            if String.eqb studyKey "" then w
            else
              match generated with
              | Some questions => Bot.saveGenerated now studyKey render_throws questions w
              | None => w
              end
        end
  | _, _ => w
  end.
End Commands.

(** What [sendQuestionsList] shows. *)
Inductive ListView :=
  | NoQuestions
  | PageShown (page : Z) (rows : list Question) (totalPages : option Z)
              (back forward : bool).

(** [sendQuestionsList] with page size 5: an empty page after the first
    falls back to the page before.  [fuel] bounds the recursive calls. *)
Fixpoint listFrom (fuel : nat) (studyKey : string) (page : Z) (st : Store)
  : option ListView :=
  let r := getQuestions studyKey page 5 st in
  match page_questions r with
  | [] =>
      if 1 <? page then
        match fuel with
        | O => None
        | S fuel' => listFrom fuel' studyKey (page - 1) st
        end
      else Some NoQuestions
  | rows =>
      Some (PageShown page rows (totalPages r) (1 <? page)
                      (match totalPages r with
                       | Some n => page <? n
                       | None => true
                       end))
  end.

Definition sendQuestionsList (studyKey : string) (page : Z) (st : Store)
  : option ListView :=
  listFrom (Z.to_nat page) studyKey page st.

End Handlers.

(** ** Asking a question and judging the answer *)

Module Quiz.
Import Db Accounts Handlers.
Import Stdlib.Strings.Ascii.

(** The calls made on an [InlineKeyboard] under construction, in order. *)
Inductive KeyboardCall :=
  | Text (label data : string)
  | Row.

(** A button of the [inline_keyboard] of a received message. *)
Record InlineKeyboardButton := mkButton {
  text : string;
  callback_data : option string
}.

(** The image directory: for each question id, the text and options its
    stored image was rendered from. *)
Abbreviation Images := (gmap Z (string * list string)).

(** What [sendRandomQuestion] sends. *)
Inductive Sent :=
  | NothingSent
  | NoTopic
  | NoQuestionsFound (studyKey : string)
  | RenderError
  | Photo (image : string * list string) (keyboard : list KeyboardCall).

(** How the answer branch of the callback handler ends. *)
Inductive Verdict :=
  | NotAnAnswer
  | NoMessage
  | Correct (letter : string) (rating : Z) (next : Sent)
  | Incorrect (keyboard : option (list KeyboardCall)).

Section Asking.
(** A number inside a template literal, [String.fromCharCode] and
    [parseInt] ([None] for NaN) of the runtime. *)
Variable show : Z → string.
Variable fromCharCode : Z → string.
Variable parseInt : string → option Z.

(** The payload [q:<question_id>:<correct_index>:<this_index>]. *)
Definition answerData (questionId correctIndex idx : Z) : string :=
  "q:" ++ show questionId ++ ":" ++ show correctIndex ++ ":" ++ show idx.

(** The keyboard of a question: one lettered button per option, a new row
    after every fourth. *)
Definition questionKeyboard (question : Question) : list KeyboardCall :=
  concat (imap (λ idx (_ : string),
                  Text (fromCharCode (65 + Z.of_nat idx))
                       (answerData (id question) (correct_index question)
                                   (Z.of_nat idx))
                  :: (if (Z.of_nat idx + 1) mod 4 =? 0 then [Row] else []))
               (options question)).

(** [sendRandomQuestion]: the stored image is sent when there is one,
    otherwise the question is rendered and the image stored;
    [render_throws] tells whether that attempt throws. *)
Definition sendRandomQuestion (rnd : nat → Z) (now : Z) (render_throws : bool)
    (userId : option Z) (t : Tables) (st : Store) (imgs : Images)
  : Sent * Store * Images :=
  match userId with
  | None => (NothingSent, st, imgs)
  | Some u =>
      if u =? 0 then (NothingSent, st, imgs)
      else
        match getUserStudyKey u t with
        | None => (NoTopic, st, imgs)
        | Some studyKey =>
            if String.eqb studyKey "" then (NoTopic, st, imgs)
            else
              match getRandomQuestion rnd now studyKey u st with
              | (None, st') => (NoQuestionsFound studyKey, st', imgs)
              | (Some question, st') =>
                  match imgs !! id question with
                  | Some stored =>
                      (Photo stored (questionKeyboard question), st', imgs)
                  | None =>
                      if render_throws then (RenderError, st', imgs)
                      else
                        let image := (question_text question, options question) in
                        (Photo image (questionKeyboard question), st',
                         <[id question := image]> imgs)
                  end
              end
        end
  end.

(** [a === b] on the results of [parseInt]: NaN equals nothing. *)
Definition same_number (a b : option Z) : bool :=
  match a, b with
  | Some x, Some y => x =? y
  | _, _ => false
  end.

(** [btn.callback_data || "ignore"]. *)
Definition data_or_ignore (btn : InlineKeyboardButton) : string :=
  match callback_data btn with
  | Some d => if String.eqb d "" then "ignore" else d
  | None => "ignore"
  end.

(** The keyboard rebuilt after a wrong answer: every row without the
    clicked button, rows left empty dropped. *)
Definition without_button (data : string)
    (currentKeyboard : list (list InlineKeyboardButton)) : list KeyboardCall :=
  concat (map (λ buttons,
                 let keptButtons :=
                   filter (λ btn, callback_data btn ≠ Some data) buttons in
                 if (0 <? length keptButtons)%nat
                 then Row :: map (λ btn, Text (text btn) (data_or_ignore btn))
                                 keptButtons
                 else [])
              currentKeyboard).

(** The answer branch of the callback handler.  Data whose first part is
    [q] starts with none of the prefixes of the branches before it.
    [message] is [context.message] with its [reply_markup?.inline_keyboard]. *)
Definition answerCallback (data : string)
    (message : option (option (list (list InlineKeyboardButton))))
    (fromId : option Z) (rnd : nat → Z) (now : Z) (render_throws : bool)
    (t : Tables) (st : Store) (imgs : Images) : Verdict * Store * Images :=
  match split ":"%char data with
  | [p0; p1; p2; p3] =>
      if String.eqb p0 "q" then
        let questionId := parseInt p1 in
        let correctIndex := parseInt p2 in
        let selectedIndex := parseInt p3 in
        match message with
        | None => (NoMessage, st, imgs)
        | Some currentKeyboard =>
            if same_number selectedIndex correctIndex then
              let stats :=
                match questionId with
                | Some qid => getQuestionStats qid st
                | None => (0, 0)
                end in
              let rating := Bot.ratingPercent stats in
              let '(next, st', imgs') :=
                sendRandomQuestion rnd now render_throws fromId t st imgs in
              (Correct (fromCharCode (65 + default 0 correctIndex)) rating next,
               st', imgs')
            else (Incorrect (without_button data <$> currentKeyboard), st, imgs)
        end
      else (NotAnAnswer, st, imgs)
  | _ => (NotAnAnswer, st, imgs)
  end.
End Asking.

End Quiz.

(** ** Further vocabulary *)

Module Terms.
Import Db.

(** What is left of a row when its options and correct index are put aside. *)
Definition fixed_part (q : Question) : Z * string * string * Z * Z * Z :=
  (id q, study_key q, question_text q, created_at q, thumbs_up q, thumbs_down q).

(** What is left of a row when its study key is put aside. *)
Definition keyless_part (q : Question)
  : Z * string * list string * Z * Z * Z * Z :=
  (id q, question_text q, options q, correct_index q, created_at q,
   thumbs_up q, thumbs_down q).

(** The characters [escapeHtml] rewrites. *)
Definition special (c : Ascii.ascii) : Prop :=
  c = Ascii.ascii_of_nat 38 ∨ c = Ascii.ascii_of_nat 60 ∨
  c = Ascii.ascii_of_nat 62 ∨ c = Ascii.ascii_of_nat 34 ∨
  c = Ascii.ascii_of_nat 39.

(** The text that stands for one character after escaping. *)
Definition escaped (c : Ascii.ascii) : string :=
  if decide (c = Ascii.ascii_of_nat 38) then "&amp;"
  else if decide (c = Ascii.ascii_of_nat 60) then "&lt;"
  else if decide (c = Ascii.ascii_of_nat 62) then "&gt;"
  else if decide (c = Ascii.ascii_of_nat 34) then "&quot;"
  else if decide (c = Ascii.ascii_of_nat 39) then "&#039;"
  else String c EmptyString.

Fixpoint escaped_text (s : string) : string :=
  match s with
  | EmptyString => EmptyString
  | String c rest => escaped c ++ escaped_text rest
  end.

(** The stored images are current: the image kept for a stored question was
    rendered from the text and options the question has now.  The other
    parts make this an invariant: ids are distinct, and neither a question
    nor an image has an id above the AUTOINCREMENT counter. *)
Record images_current (st : Store) (imgs : Quiz.Images) : Prop := mkCurrent {
  current_image : ∀ q img, q ∈ questions st → imgs !! id q = Some img →
                           img = (question_text q, options q);
  current_ids : NoDup (id <$> questions st);
  current_bound : ∀ q, q ∈ questions st → id q ≤ seq st;
  current_image_bound : ∀ i, is_Some (imgs !! i) → i ≤ seq st
}.

(** The buttons of a keyboard under construction, in order. *)
Definition buttons_of (calls : list Quiz.KeyboardCall) : list (string * string) :=
  omap (λ c, match c with
             | Quiz.Text label data => Some (label, data)
             | Quiz.Row => None
             end) calls.

End Terms.

(** ** Vocabulary of the statements *)

Module Spec.
Import Db.

(** The counters [(approve, reject)] after one more vote of polarity [p]. *)
Definition counted (p : bool) (s : Z * Z) : Z * Z :=
  if p then (s.1 + 1, s.2) else (s.1, s.2 + 1).

(** One user voting on one question several times in a row. *)
Definition addVotes (u q : Z) (ps : list bool) (st : Store) : Store :=
  foldl (λ s p, addVote u q p s) st ps.

(** The drafts whose positions occur in [zs], in draft order. *)
Definition kept_positions {A} (zs : list Z) (drafts : list A) : list A :=
  omap (λ i, drafts !! i)
       (filter (λ i, Z.of_nat i ∈ zs) (List.seq 0 (length drafts))).

(** A parsed reply that is a list of the integers [zs]. *)
Definition integer_list (items : list Ai.json) (zs : list Z) : Prop :=
  Forall2 (λ v z, ∃ n, v = Ai.JNum n ∧ (n == inject_Z z)%Q) items zs.

(** The option list of [q] after the Fisher-Yates loop, and the index that
    [indexOf] then finds for the captured answer: the values of [options]
    and [newCorrectIndex] in the body of the shuffle loop. *)
Definition shuffled (c : Bot.Chance) (q : Question) : list string :=
  Bot.fisher_yates (Bot.random c) (length (options q) - 1) (options q).

Definition newCorrectIndex (c : Bot.Chance) (q : Question) : Z :=
  Bot.indexOf (shuffled c q) (Bot.at_index (options q) (correct_index q)).

(** The structural invariant of a stored question. *)
Definition well_formed (q : Question) : Prop :=
  0 ≤ correct_index q < Z.of_nat (length (options q)) ∧
  (2 ≤ length (options q))%nat.

Definition store_well_formed (st : Store) : Prop :=
  ∀ q, q ∈ questions st → well_formed q.

(** The same invariant on a generated candidate. *)
Definition candidate_well_formed (g : Ai.GeneratedQuestion) : Prop :=
  0 ≤ Ai.correct_index g < Z.of_nat (length (Ai.options g)) ∧
  (2 ≤ length (Ai.options g))%nat.

(** The option list and correct index of a row and of a candidate. *)
Definition answer_of (q : Question) : list string * Z :=
  (options q, correct_index q).

Definition candidate_answer (g : Ai.GeneratedQuestion) : list string * Z :=
  (Ai.options g, Ai.correct_index g).

(** Votes of value [v] stored for question [qid], and their number. *)
Definition votes_for (qid v : Z) (kv : Z * Z * Z) : Prop :=
  kv.1.2 = qid ∧ kv.2 = v.

#[global] Instance votes_for_dec qid v kv : Decision (votes_for qid v kv).
Proof. unfold votes_for. apply _. Defined.

Definition count_votes (qid v : Z) (vs : gmap (Z * Z) Z) : Z :=
  Z.of_nat (size (filter (votes_for qid v) vs)).

(** The counters of every stored question agree with the stored votes. *)
Definition ledger_ok (st : Store) : Prop :=
  ∀ q, q ∈ questions st →
    thumbs_up q = count_votes (id q) 1 (votes st) ∧
    thumbs_down q = count_votes (id q) (-1) (votes st).

(** The ledger together with what keeps it stable: votes are 1 or -1, and
    votes and questions carry ids that have been handed out. *)
Record ledger_inv (st : Store) : Prop := mkLedger {
  ledger_counts : ledger_ok st;
  ledger_polar : ∀ k v, votes st !! k = Some v → v = 1 ∨ v = -1;
  ledger_votes_known : ∀ u qid v, votes st !! (u, qid) = Some v → qid ≤ seq st;
  ledger_ids_known : ∀ q, q ∈ questions st → id q ≤ seq st
}.

End Spec.

(** ** Sample data *)

Definition sample_question : Db.Question :=
  Db.mkQuestion 1 "Physics" "What does Newton's first law state?"
                ["Inertia"; "Gravity"; "Entropy"] 0 1700000000 0 0.

Definition sample_store : Db.Store := Db.mkStore [sample_question] 1 ∅ ∅.

(** Three questions of one study key with votes 0/0, 3/0 and 0/3. *)
Definition question_A : Db.Question :=
  Db.mkQuestion 1 "Physics" "A" ["a1"; "a2"] 0 1700000000 0 0.
Definition question_B : Db.Question :=
  Db.mkQuestion 2 "Physics" "B" ["b1"; "b2"; "b3"] 1 1700000000 3 0.
Definition question_C : Db.Question :=
  Db.mkQuestion 3 "Physics" "C" ["c1"; "c2"] 1 1700000000 0 3.

Definition fresh_store : Db.Store :=
  Db.mkStore [question_A; question_B; question_C] 3 ∅ ∅.

(** The same questions, all shown to user 7 at times 10, 30 and 20. *)
Definition seen_store : Db.Store :=
  Db.mkStore [question_A; question_B; question_C] 3 ∅
             (<[(7, 1) := 10]> (<[(7, 2) := 30]> (<[(7, 3) := 20]> ∅))).

(** A reply of the validation call inside a code fence, a parser that
    understands just that reply, and two drafts. *)
Definition sample_drafts : list Ai.GeneratedQuestion :=
  [Ai.mkGenerated "What does Newton's first law state?" ["Inertia"; "Gravity"] 0;
   Ai.mkGenerated "What does this law state?" ["Inertia"; "Gravity"] 0].

Definition sample_parse (s : string) : option Ai.json :=
  if String.eqb s "[0, 7]"
  then Some (Ai.JArr [Ai.JNum (inject_Z 0); Ai.JNum (inject_Z 7)])
  else None.

Definition sample_parse_questions (s : string) : option (list Ai.GeneratedQuestion) :=
  Some sample_drafts.

(** Decimal numerals for the numbers of a payload, and a letter for a
    character code. *)
Definition sample_show (n : Z) : string :=
  DecimalString.NilZero.string_of_int (Z.to_int n).

Definition sample_parseInt (s : string) : option Z :=
  Z.of_int <$> DecimalString.NilZero.int_of_string s.

Definition sample_fromCharCode (n : Z) : string :=
  String (Ascii.ascii_of_nat (Z.to_nat n)) EmptyString.

(** A world around [fresh_store] with no images and an empty log, and an
    environment in which every draw of Math.random() is 0. *)
Definition fresh_world : Bot.World := Bot.mkWorld fresh_store ∅ [].

Definition calm : Bot.Chance := Bot.mkChance (λ _, 0%Q) false false.

(** A candidate with duplicate options and an index outside them. *)
Definition broken_candidate : Ai.GeneratedQuestion :=
  Ai.mkGenerated "Which one?" ["x"; "x"] 5.

(** Environments in which, for question 1 only, the renderer fails, or the
    UPDATE fails. *)
Definition render_fails_for_1 (qid : Z) : Bot.Chance :=
  Bot.mkChance (λ _, 0%Q) false (qid =? 1).

Definition update_fails_for_1 (qid : Z) : Bot.Chance :=
  Bot.mkChance (λ _, 0%Q) (qid =? 1) false.

(** * Properties *)

Import Db.

(** ** Row updates *)

Section RowUpdates.
Implicit Types (q : Question) (qs : list Question) (f : Question → Question).

Lemma has_id_true qid q : has_id qid q = true ↔ id q = qid.
Proof. unfold has_id. apply bool_decide_eq_true. Qed.

Lemma has_id_false qid q : has_id qid q = false ↔ id q ≠ qid.
Proof. unfold has_id. apply bool_decide_eq_false. Qed.

Lemma find_update_id_hit qid f qs :
  (∀ q, id (f q) = id q) →
  List.find (has_id qid) (update_id qid f qs) = f <$> List.find (has_id qid) qs.
Proof.
  intros Hid. induction qs as [|q qs IH]; [done|].
  cbn. destruct (has_id qid q) eqn:E.
  - assert (has_id qid (f q) = true) as ->; [|done].
    apply has_id_true. rewrite Hid. by apply has_id_true.
  - rewrite E. apply IH.
Qed.

Lemma find_update_id_miss qid qid' f qs :
  (∀ q, id (f q) = id q) → qid ≠ qid' →
  List.find (has_id qid') (update_id qid f qs) = List.find (has_id qid') qs.
Proof.
  intros Hid Hne. induction qs as [|q qs IH]; [done|].
  cbn. destruct (has_id qid q) eqn:E.
  - apply has_id_true in E.
    assert (has_id qid' q = false) as -> by (apply has_id_false; congruence).
    assert (has_id qid' (f q) = false) as ->; [|apply IH].
    apply has_id_false. rewrite Hid. congruence.
  - destruct (has_id qid' q); [done|apply IH].
Qed.

Lemma update_id_ids qid f qs :
  (∀ q, id (f q) = id q) → id <$> update_id qid f qs = id <$> qs.
Proof.
  intros Hid. unfold update_id. induction qs as [|q qs IH]; [done|].
  cbn. rewrite <- IH. f_equal. destruct (has_id qid q); [apply Hid|done].
Qed.

Lemma find_has_id_Some qid qs :
  (∃ q, q ∈ qs ∧ id q = qid) → is_Some (List.find (has_id qid) qs).
Proof.
  intros (q & Hin & Hq). induction qs as [|q' qs IH]; [by apply elem_of_nil in Hin|].
  cbn. destruct (has_id qid q') eqn:E; [eauto|].
  apply elem_of_cons in Hin as [->|Hin]; [|by apply IH].
  apply has_id_false in E. done.
Qed.
End RowUpdates.

(** ** Quality ledger: one vote *)

Section VoteTransition.
Import Spec.
Variables (u q : Z).

Lemma stats_find qid st :
  getQuestionStats qid st =
    from_option (λ row, (thumbs_up row, thumbs_down row)) (0, 0)
                (getQuestionById qid st).
Proof. unfold getQuestionStats, getQuestionById. by destruct (List.find _ _). Qed.

Lemma addVote_new p st row :
  votes st !! (u, q) = None →
  getQuestionById q st = Some row →
  votes (addVote u q p st) !! (u, q) = Some (voteVal p) ∧
  getQuestionStats q (addVote u q p st)
    = counted p (thumbs_up row, thumbs_down row).
Proof.
  intros Hv Hrow. unfold addVote. rewrite Hv. cbn. split.
  - apply lookup_insert_eq.
  - rewrite stats_find. unfold getQuestionById in *. cbn.
    rewrite find_update_id_hit by (intros; by destruct p).
    rewrite Hrow. by destruct p.
Qed.

Lemma addVote_same p st :
  votes st !! (u, q) = Some (voteVal p) → addVote u q p st = st.
Proof. intros Hv. unfold addVote. rewrite Hv. by rewrite decide_True. Qed.

Lemma addVote_flip p st row :
  votes st !! (u, q) = Some (voteVal (negb p)) →
  getQuestionById q st = Some row →
  votes (addVote u q p st) !! (u, q) = Some (voteVal p) ∧
  getQuestionStats q (addVote u q p st)
    = if p then (thumbs_up row + 1, thumbs_down row - 1)
      else (thumbs_up row - 1, thumbs_down row + 1).
Proof.
  intros Hv Hrow. unfold addVote. rewrite Hv.
  rewrite decide_False by (by destruct p). cbn. split.
  - apply lookup_insert_eq.
  - rewrite stats_find. unfold getQuestionById in *. cbn.
    rewrite find_update_id_hit by (intros; by destruct p).
    rewrite Hrow. by destruct p.
Qed.

Lemma addVote_stored p st :
  is_Some (votes st !! (u, q)) →
  votes (addVote u q p st) !! (u, q) = Some (voteVal p).
Proof.
  intros [v Hv]. unfold addVote. rewrite Hv.
  destruct (decide (v = voteVal p)) as [->|]; [done|]. apply lookup_insert_eq.
Qed.

Lemma addVote_twice p st :
  addVote u q p (addVote u q p st) = addVote u q p st.
Proof.
  apply addVote_same. unfold addVote.
  destruct (votes st !! (u, q)) as [v|] eqn:Hv; cbn.
  - destruct (decide (v = voteVal p)) as [->|]; [done|]. apply lookup_insert_eq.
  - apply lookup_insert_eq.
Qed.

Lemma addVote_other_votes p st k :
  k ≠ (u, q) → votes (addVote u q p st) !! k = votes st !! k.
Proof.
  intros Hk. unfold addVote. destruct (votes st !! (u, q)) as [v|]; cbn.
  - destruct (decide _); [done|]. cbn. by rewrite lookup_insert_ne.
  - by rewrite lookup_insert_ne.
Qed.

Lemma addVote_other_question p st q' :
  q' ≠ q → getQuestionById q' (addVote u q p st) = getQuestionById q' st.
Proof.
  intros Hq. unfold addVote, getQuestionById.
  destruct (votes st !! (u, q)) as [v|]; cbn.
  - destruct (decide _); [done|]. cbn.
    apply find_update_id_miss; [intros; by destruct p|done].
  - apply find_update_id_miss; [intros; by destruct p|done].
Qed.

Lemma addVote_keeps_row p st :
  is_Some (getQuestionById q st) → is_Some (getQuestionById q (addVote u q p st)).
Proof.
  intros [row Hrow]. unfold addVote, getQuestionById in *.
  destruct (votes st !! (u, q)) as [v|]; cbn.
  - destruct (decide _); [by rewrite Hrow|]. cbn.
    rewrite find_update_id_hit by (intros; by destruct p). by rewrite Hrow.
  - rewrite find_update_id_hit by (intros; by destruct p). by rewrite Hrow.
Qed.

(** Once the user has a vote of polarity [p0] counted on top of [base],
    any further vote leaves exactly its own polarity counted on [base]. *)
Lemma addVote_recount p0 p st base :
  votes st !! (u, q) = Some (voteVal p0) →
  is_Some (getQuestionById q st) →
  getQuestionStats q st = counted p0 base →
  getQuestionStats q (addVote u q p st) = counted p base.
Proof.
  intros Hv [row Hrow] Hstats.
  rewrite stats_find, Hrow in Hstats. cbn in Hstats.
  destruct (decide (p0 = p)) as [->|Hne].
  - rewrite addVote_same by done. by rewrite stats_find, Hrow.
  - assert (p0 = negb p) as -> by (by destruct p0, p).
    destruct (addVote_flip p st row Hv Hrow) as [_ ->].
    destruct base as [a r]. destruct p; cbn in *; inversion Hstats; f_equal; lia.
Qed.

Lemma addVotes_recount ps : ∀ p0 st base,
  votes st !! (u, q) = Some (voteVal p0) →
  is_Some (getQuestionById q st) →
  getQuestionStats q st = counted p0 base →
  let p := List.last ps p0 in
  votes (addVotes u q ps st) !! (u, q) = Some (voteVal p) ∧
  getQuestionStats q (addVotes u q ps st) = counted p base.
Proof.
  induction ps as [|p1 ps IH]; intros p0 st base Hv Hrow Hstats; [done|].
  cbn -[List.last].
  assert (List.last (p1 :: ps) p0 = List.last ps p1) as ->.
  { clear. revert p0 p1. induction ps as [|x ps IH]; intros p0 p1; [done|].
    change (List.last (x :: ps) p0 = List.last (x :: ps) p1).
    by rewrite !IH. }
  apply IH.
  - apply addVote_stored. by rewrite Hv.
  - by apply addVote_keeps_row.
  - by eapply addVote_recount.
Qed.
End VoteTransition.

(** C1. [addVote] is one transition of the (votes, counters) state of a
    stored question: without a prior vote of the user the matching counter
    grows by one and the vote is stored; with a prior vote of the same
    polarity nothing changes, so voting twice equals voting once; with a
    prior vote of the opposite polarity the old counter loses one, the new
    one gains one and the stored vote is overwritten.  Votes of other keys,
    other questions and the progress table are untouched, and after any
    sequence of votes that starts without a prior vote exactly the last
    polarity is counted once. *)
Theorem addVote_transition (u q : Z) (p : bool) (st : Store) (row : Question) :
  getQuestionById q st = Some row →
  let a := thumbs_up row in
  let r := thumbs_down row in
  let st' := addVote u q p st in
  (votes st !! (u, q) = None →
     votes st' !! (u, q) = Some (voteVal p) ∧
     getQuestionStats q st' = if p then (a + 1, r) else (a, r + 1)) ∧
  (votes st !! (u, q) = Some (voteVal p) → st' = st) ∧
  (votes st !! (u, q) = Some (voteVal (negb p)) →
     votes st' !! (u, q) = Some (voteVal p) ∧
     getQuestionStats q st' = if p then (a + 1, r - 1) else (a - 1, r + 1)) ∧
  addVote u q p st' = st' ∧
  (∀ k, k ≠ (u, q) → votes st' !! k = votes st !! k) ∧
  (∀ q', q' ≠ q → getQuestionById q' st' = getQuestionById q' st) ∧
  user_progress st' = user_progress st ∧
  (∀ ps, votes st !! (u, q) = None →
     let final := Spec.addVotes u q (p :: ps) st in
     votes final !! (u, q) = Some (voteVal (List.last ps p)) ∧
     getQuestionStats q final = Spec.counted (List.last ps p) (a, r)).
Proof.
  intros Hrow a r st'. subst a r st'. repeat split.
  - by apply (addVote_new u q p st row).
  - destruct (addVote_new u q p st row) as [_ ->]; [done..|]. by destruct p.
  - apply addVote_same.
  - by apply (addVote_flip u q p st row).
  - by apply (addVote_flip u q p st row).
  - apply addVote_twice.
  - intros k Hk. by apply addVote_other_votes.
  - intros q' Hq'. by apply addVote_other_question.
  - unfold addVote. destruct (votes st !! (u, q)); [destruct (decide _)|]; done.
  - destruct (addVote_new u q p st row) as [Hv Hs]; [done..|].
    eapply (addVotes_recount u q ps p (addVote u q p st)); eauto.
    apply addVote_keeps_row. by rewrite Hrow.
  - destruct (addVote_new u q p st row) as [Hv Hs]; [done..|].
    eapply (addVotes_recount u q ps p (addVote u q p st)); eauto.
    apply addVote_keeps_row. by rewrite Hrow.
Qed.

Lemma addVote_transition_witness :
  getQuestionById 1 sample_store = Some sample_question ∧
  getQuestionStats 1 (addVote 7 1 true sample_store) = (1, 0) ∧
  getQuestionStats 1 (Spec.addVotes 7 1 [true; false; true; false] sample_store) = (0, 1).
Proof.
  pose proof (addVote_transition 7 1 true sample_store sample_question eq_refl) as H.
  cbv zeta in H.
  destruct H as (Hnew & _ & _ & _ & _ & _ & _ & Hseq).
  split; [reflexivity|]. split.
  - exact (proj2 (Hnew eq_refl)).
  - exact (proj2 (Hseq [false; true; false] eq_refl)).
Defined.

(** ** Quality ledger: the rating *)

Section Rating.
Import Bot.

(** The SQL expression as one fraction of integers. *)
Lemma rating_fraction a r :
  0 ≤ a → 0 ≤ r → (rating a r == (a + 1) # Z.to_pos (a + r + 2))%Q.
Proof.
  intros Ha Hr. unfold rating.
  rewrite (Qmake_Qdiv (a + 1) (Z.to_pos (a + r + 2))).
  rewrite Z2Pos.id by lia. by rewrite !inject_Z_plus.
Qed.

Lemma rating_denominator a r :
  0 ≤ a → 0 ≤ r → ¬ (inject_Z a + inject_Z r + 2 == 0)%Q.
Proof.
  intros Ha Hr. rewrite <- (inject_Z_plus a r).
  change 2%Q with (inject_Z 2). rewrite <- inject_Z_plus.
  change 0%Q with (inject_Z 0). rewrite inject_Z_injective. lia.
Qed.

Lemma rating_bounds a r : 0 ≤ a → 0 ≤ r → (0 < rating a r)%Q ∧ (rating a r < 1)%Q.
Proof.
  intros Ha Hr. rewrite rating_fraction by done.
  unfold Qlt. cbn. rewrite Z2Pos.id by lia. lia.
Qed.

Lemma rating_increasing a a' r :
  0 ≤ a → 0 ≤ r → a < a' → (rating a r < rating a' r)%Q.
Proof.
  intros Ha Hr Hlt. rewrite !rating_fraction by lia.
  unfold Qlt. cbn. rewrite !Z2Pos.id by lia. nia.
Qed.

Lemma rating_decreasing a r r' :
  0 ≤ a → 0 ≤ r → r < r' → (rating a r' < rating a r)%Q.
Proof.
  intros Ha Hr Hlt. rewrite !rating_fraction by lia.
  unfold Qlt. cbn. rewrite !Z2Pos.id by lia. nia.
Qed.

(** With at least one vote the caption shows the plain share of approvals,
    rounded to the nearest percent. *)
Lemma ratingPercent_share a r :
  0 ≤ a → 0 ≤ r → 0 < a + r →
  ratingPercent (a, r) = (200 * a + (a + r)) / (2 * (a + r)).
Proof.
  intros Ha Hr Ht. unfold ratingPercent. cbn [fst snd].
  assert ((0 <? a + r) = true) as -> by (apply Z.ltb_lt; lia).
  unfold Math_round. remember (a + r) as t eqn:Et.
  assert (inject_Z a / inject_Z t * 100 + (1 # 2)
          == (200 * a + t) # Z.to_pos (2 * t))%Q as ->.
  { rewrite (Qmake_Qdiv _ (Z.to_pos (2 * t))).
    rewrite Z2Pos.id by lia.
    rewrite inject_Z_plus, !inject_Z_mult.
    assert (¬ inject_Z t == 0)%Q.
    { change 0%Q with (inject_Z 0). rewrite inject_Z_injective. lia. }
    change (inject_Z 200) with 200%Q. change (inject_Z 2) with 2%Q.
    field. done. }
  cbn. by rewrite Z2Pos.id by lia.
Qed.
End Rating.




(** ** Selection engine *)

(** ORDER BY ... LIMIT 1: the head of a sorted list is a least row. *)
Section FirstRow.
Context {A : Type} (R : relation A) `{∀ x y, Decision (R x y)}.
Context `{!Transitive R, !Total R}.

Lemma first_row_least l x :
  head (merge_sort R l) = Some x → x ∈ l ∧ ∀ y, y ∈ l → R x y.
Proof.
  intros Hhead. apply head_Some in Hhead as [rest Hsorted].
  pose proof (StronglySorted_merge_sort R l) as Hss.
  pose proof (merge_sort_Permutation R l) as Hperm.
  rewrite Hsorted in Hss, Hperm.
  apply StronglySorted_cons in Hss as [Hall _]. split.
  - rewrite <- Hperm. left.
  - intros y Hy. rewrite <- Hperm in Hy.
    apply elem_of_cons in Hy as [->|Hy].
    + by destruct (total R x x).
    + rewrite Forall_forall in Hall. by apply Hall.
Qed.

Lemma first_row_none l : head (merge_sort R l) = None ↔ l = [].
Proof.
  rewrite head_None. split; [|by intros ->].
  intros Hnil. pose proof (merge_sort_Permutation R l) as Hperm.
  rewrite Hnil in Hperm. by apply Permutation_nil in Hperm.
Qed.
End FirstRow.

Section Orders.
Lemma by_weight_random_iff x y :
  by_weight_random x y ↔
    (weight y.1 < weight x.1)%Q ∨ ((weight x.1 == weight y.1)%Q ∧ x.2 ≤ y.2).
Proof.
  unfold by_weight_random.
  destruct (weight y.1 ?= weight x.1)%Q eqn:E.
  - apply Qeq_alt in E. split; [intros; right; split; [by symmetry|done]|].
    intros [Hlt|[_ ?]]; [|done]. rewrite E in Hlt. by apply Qlt_irrefl in Hlt.
  - apply Qlt_alt in E. split; [by left|done].
  - apply Qgt_alt in E. split; [done|].
    intros [Hlt|[Heq _]].
    + apply (Qlt_irrefl (weight x.1)). by eapply Qlt_trans.
    + rewrite Heq in E. by apply Qlt_irrefl in E.
Qed.

#[global] Instance by_weight_random_total : Total by_weight_random.
Proof.
  intros x y. rewrite !by_weight_random_iff.
  destruct (Q_dec (weight x.1) (weight y.1)) as [[Hlt|Hgt]|Heq]; [by right; left|by left; left|].
  destruct (Z.le_ge_cases x.2 y.2).
  - left. by right.
  - right. right. split; [by symmetry|done].
Qed.

#[global] Instance by_weight_random_trans : Transitive by_weight_random.
Proof.
  intros x y z. rewrite !by_weight_random_iff.
  intros [H1|[H1 H1']] [H2|[H2 H2']].
  - left. by eapply Qlt_trans.
  - left. by rewrite <- H2.
  - left. by rewrite H1.
  - right. split; [by rewrite H1|lia].
Qed.

#[global] Instance by_last_used_total : Total by_last_used.
Proof. intros x y. unfold by_last_used. lia. Qed.

#[global] Instance by_last_used_trans : Transitive by_last_used.
Proof. intros x y z. unfold by_last_used. lia. Qed.
End Orders.

Section Novelty.
Variables (k : string) (u : Z) (st : Store).

Lemma elem_of_unused_rows q :
  q ∈ unused_rows k u st ↔
    q ∈ questions st ∧ study_key q = k ∧ user_progress st !! (u, id q) = None.
Proof. unfold unused_rows. rewrite list_elem_of_filter. tauto. Qed.

(** The first query returns a row of greatest weight, and among the rows
    of that weight one whose RANDOM() value is least. *)
Lemma select_unused rnd :
  unused_rows k u st ≠ [] →
  ∃ r i,
    select_question rnd k u st = Some r ∧
    unused_rows k u st !! i = Some r ∧
    ∀ j q, unused_rows k u st !! j = Some q →
      (weight q <= weight r)%Q ∧ ((weight q == weight r)%Q → rnd i ≤ rnd j).
Proof.
  intros Hne. unfold select_question.
  destruct (head (merge_sort by_weight_random _)) as [x|] eqn:Hhead.
  - apply first_row_least in Hhead as [Hin Hleast]; [|apply _..].
    apply elem_of_lookup_imap in Hin as (i & r & -> & Hi).
    exists r, i. split; [done|]. split; [done|].
    intros j q Hj.
    specialize (Hleast (q, rnd j) (elem_of_lookup_imap_2 _ _ _ _ Hj)).
    apply by_weight_random_iff in Hleast. cbn in Hleast.
    destruct Hleast as [Hlt|[Heq Hle]].
    + split; [by apply Qlt_le_weak|].
      intros Heq. rewrite Heq in Hlt. by apply Qlt_irrefl in Hlt.
    + split; [|done]. rewrite Heq. apply Qle_refl.
  - apply first_row_none in Hhead.
    apply (f_equal length) in Hhead. rewrite length_imap in Hhead.
    by destruct (unused_rows k u st).
Qed.

Lemma getRandomQuestion_result rnd now :
  (getRandomQuestion rnd now k u st).1 = select_question rnd k u st.
Proof. unfold getRandomQuestion. by destruct (select_question _ _ _ _). Qed.

Lemma getRandomQuestion_progress rnd now r :
  select_question rnd k u st = Some r →
  user_progress (getRandomQuestion rnd now k u st).2
    = <[(u, id r) := now]> (user_progress st).
Proof. intros Hr. unfold getRandomQuestion. by rewrite Hr. Qed.

Lemma getRandomQuestion_questions rnd now :
  questions (getRandomQuestion rnd now k u st).2 = questions st.
Proof. unfold getRandomQuestion. by destruct (select_question _ _ _ _). Qed.
End Novelty.


Example next_fresh_store :
  (getRandomQuestion (λ _, 0) 1000 "Physics" 7 fresh_store).1 = Some question_B.
Proof. vm_compute. reflexivity. Qed.


Section Recency.
Variables (k : string) (u : Z).

Lemma elem_of_used_rows st q t :
  (q, t) ∈ used_rows k u st ↔
    q ∈ questions st ∧ study_key q = k ∧ user_progress st !! (u, id q) = Some t.
Proof.
  unfold used_rows. rewrite list_elem_of_omap. split.
  - intros (q' & Hin & Hrow). unfold in_key in Hrow.
    case_bool_decide; [|done].
    destruct (user_progress st !! (u, id q')) as [t'|] eqn:Ht; [|done].
    cbn in Hrow. by simplify_eq.
  - intros (Hin & Hkey & Ht). exists q. split; [done|].
    unfold in_key. rewrite bool_decide_eq_true_2 by done. by rewrite Ht.
Qed.

Lemma unused_rows_nil st :
  (∀ q, q ∈ questions st → study_key q = k →
        is_Some (user_progress st !! (u, id q))) →
  unused_rows k u st = [].
Proof.
  intros Hall. destruct (unused_rows k u st) as [|q rest] eqn:E; [done|].
  assert (q ∈ unused_rows k u st) as Hq by (rewrite E; left).
  apply elem_of_unused_rows in Hq as (Hin & Hkey & Hnone).
  destruct (Hall q Hin Hkey) as [t Ht]. congruence.
Qed.

(** With every question of the key exposed, the second query decides. *)
Lemma select_used rnd st q0 :
  q0 ∈ questions st → study_key q0 = k →
  (∀ q, q ∈ questions st → study_key q = k →
        is_Some (user_progress st !! (u, id q))) →
  ∃ r t,
    select_question rnd k u st = Some r ∧
    r ∈ questions st ∧ study_key r = k ∧
    user_progress st !! (u, id r) = Some t ∧
    ∀ q t', q ∈ questions st → study_key q = k →
            user_progress st !! (u, id q) = Some t' → t ≤ t'.
Proof.
  intros Hin Hkey Hall. unfold select_question.
  rewrite unused_rows_nil by done. cbn [imap merge_sort merge_sort_aux head].
  cbn [merge_stack_flatten].
  destruct (head (merge_sort by_last_used _)) as [[r t]|] eqn:Hhead.
  - apply first_row_least in Hhead as [Hr Hleast]; [|apply _..].
    apply elem_of_used_rows in Hr as (Hr1 & Hr2 & Hr3).
    exists r, t. do 4 (split; [done|]).
    intros q t' Hq1 Hq2 Hq3.
    apply (Hleast (q, t')). by apply elem_of_used_rows.
  - apply first_row_none in Hhead.
    destruct (Hall q0 Hin Hkey) as [t0 Ht0].
    assert ((q0, t0) ∈ used_rows k u st) as Hq0 by (by apply elem_of_used_rows).
    rewrite Hhead in Hq0. by apply elem_of_nil in Hq0.
Qed.

Lemma distinct_ids (qs : list Question) q q' :
  NoDup (id <$> qs) → q ∈ qs → q' ∈ qs → id q = id q' → q = q'.
Proof.
  intros Hnd Hq Hq' Hid.
  apply list_elem_of_lookup in Hq as [i Hi].
  apply list_elem_of_lookup in Hq' as [j Hj].
  assert (i = j) as ->.
  { apply (NoDup_lookup _ _ _ (id q) Hnd).
    - by rewrite list_lookup_fmap, Hi.
    - by rewrite list_lookup_fmap, Hj, Hid. }
  congruence.
Qed.
End Recency.


Example next_seen_store :
  (getRandomQuestion (λ _, 0) 1000 "Physics" 7 seen_store).1 = Some question_A ∧
  (getRandomQuestion (λ _, 0) 1001 "Physics" 7
     (getRandomQuestion (λ _, 0) 1000 "Physics" 7 seen_store).2).1
    = Some question_C.
Proof. vm_compute. done. Qed.


(** ** Generation pipeline: the validation stage *)

Section Validation.
Import Ai.

Lemma omap_ext_elem {A B} (f g : A → option B) (l : list A) :
  (∀ x, x ∈ l → f x = g x) → omap f l = omap g l.
Proof.
  induction l as [|x l IH]; intros Hfg; [done|]. csimpl.
  rewrite (Hfg x) by left. rewrite IH; [done|].
  intros y Hy. apply Hfg. by right.
Qed.

(** The callback filter keeps the elements at the accepted indices. *)
Lemma filter_index_seq {A} (p : nat → bool) (P : nat → Prop)
    `{∀ j, Decision (P j)} (l : list A) :
  (∀ j, p j = true ↔ P j) →
  ∀ i, filter_index p i l
       = omap (λ j, l !! (j - i)%nat) (filter P (List.seq i (length l))).
Proof.
  intros Hp. induction l as [|x l IH]; intros i; [done|].
  cbn [filter_index length List.seq]. rewrite filter_cons.
  assert (omap (λ j, (x :: l) !! (j - i)%nat) (filter P (List.seq (S i) (length l)))
          = filter_index p (S i) l) as Htail.
  { rewrite IH. apply omap_ext_elem. intros j Hj.
    apply list_elem_of_filter in Hj as [_ Hj]. apply elem_of_seq in Hj.
    replace (j - i)%nat with (S (j - S i)) by lia. done. }
  destruct (p i) eqn:E.
  - rewrite decide_True by (by apply Hp). csimpl.
    rewrite Nat.sub_diag. cbn. by rewrite Htail.
  - rewrite decide_False; [done|]. rewrite <- Hp. congruence.
Qed.

Lemma includes_integer_list items zs i :
  Spec.integer_list items zs →
  includes items i = true ↔ Z.of_nat i ∈ zs.
Proof.
  unfold includes. induction 1 as [|v z items zs (n & -> & Hn) _ IH]; cbn.
  - split; [done|]. by intros ?%elem_of_nil.
  - rewrite orb_true_iff, IH, elem_of_cons, Qeq_bool_iff, Hn, inject_Z_injective.
    split; intros [?|?]; auto.
Qed.

Lemma filter_index_kept {A} items zs (drafts : list A) :
  Spec.integer_list items zs →
  filter_index (includes items) 0 drafts = Spec.kept_positions zs drafts.
Proof.
  intros Hint. unfold Spec.kept_positions.
  rewrite (filter_index_seq _ (λ i, Z.of_nat i ∈ zs)).
  - apply omap_ext_elem. intros j _. by rewrite Nat.sub_0_r.
  - intros j. by apply includes_integer_list.
Qed.

Lemma filter_ext_elem {A} (P Q : A → Prop) `{∀ x, Decision (P x)}
    `{∀ x, Decision (Q x)} (l : list A) :
  (∀ x, x ∈ l → P x ↔ Q x) → filter P l = filter Q l.
Proof.
  induction l as [|x l IH]; intros HPQ; [done|].
  rewrite !filter_cons, IH by (intros y Hy; apply HPQ; by right).
  destruct (decide (P x)) as [HP|HP], (decide (Q x)) as [HQ|HQ]; try done;
    exfalso; apply (HPQ x) in HP || apply (HPQ x) in HQ; done || by left.
Qed.

Lemma filter_index_sublist {A} (p : nat → bool) (l : list A) :
  ∀ i, filter_index p i l `sublist_of` l.
Proof.
  induction l as [|x l IH]; intros i; cbn; [constructor|].
  destruct (p i); [by apply sublist_skip|by apply sublist_cons].
Qed.

Lemma kept_positions_sublist {A} zs (drafts : list A) :
  Spec.kept_positions zs drafts `sublist_of` drafts.
Proof.
  assert (Spec.kept_positions zs drafts
          = filter_index (λ i, bool_decide (Z.of_nat i ∈ zs)) 0 drafts) as ->.
  { unfold Spec.kept_positions.
    rewrite (filter_index_seq _ (λ i, Z.of_nat i ∈ zs)).
    - apply omap_ext_elem. intros j _. by rewrite Nat.sub_0_r.
    - intros j. apply bool_decide_eq_true. }
  apply filter_index_sublist.
Qed.

Lemma kept_positions_in_range {A} zs zs' (drafts : list A) :
  (∀ i, (i < length drafts)%nat → Z.of_nat i ∈ zs ↔ Z.of_nat i ∈ zs') →
  Spec.kept_positions zs drafts = Spec.kept_positions zs' drafts.
Proof.
  intros Hsame. unfold Spec.kept_positions. f_equal.
  apply filter_ext_elem. intros i Hi. apply elem_of_seq in Hi.
  apply Hsame. lia.
Qed.
End Validation.

(** C5. For a non-empty draft list produced by the first stage,
    [generateQuestions] returns the drafts unchanged when the validation
    call throws, yields no or empty content, yields text that does not
    parse, or parses to something that is not an array.  When it parses to a
    list of integers the result is the drafts at the listed positions: a
    sublist of the drafts in draft order, which depends only on the listed
    integers that are positions of the draft list. *)
Theorem validation_fail_open (trim : string → string)
    (JSON_parse : string → option Ai.json)
    (JSON_parse_questions : string → option (list Ai.GeneratedQuestion))
    (raw : string) (drafts : list Ai.GeneratedQuestion) :
  drafts ≠ [] →
  trim raw ≠ "" →
  JSON_parse_questions (Ai.clean trim (trim raw)) = Some drafts →
  let generate :=
    Ai.generateQuestions trim JSON_parse JSON_parse_questions true
                         (Ai.Resolved (Some raw)) in
  generate Ai.Rejected = Some drafts ∧
  generate (Ai.Resolved None) = Some drafts ∧
  (∀ reply, trim reply = "" → generate (Ai.Resolved (Some reply)) = Some drafts) ∧
  (∀ reply, JSON_parse (Ai.clean trim (trim reply)) = None →
            generate (Ai.Resolved (Some reply)) = Some drafts) ∧
  (∀ reply v, JSON_parse (Ai.clean trim (trim reply)) = Some v →
              (∀ items, v ≠ Ai.JArr items) →
              generate (Ai.Resolved (Some reply)) = Some drafts) ∧
  (∀ reply items zs,
     trim reply ≠ "" →
     JSON_parse (Ai.clean trim (trim reply)) = Some (Ai.JArr items) →
     Spec.integer_list items zs →
     generate (Ai.Resolved (Some reply)) = Some (Spec.kept_positions zs drafts) ∧
     Spec.kept_positions zs drafts `sublist_of` drafts ∧
     ∀ zs', (∀ i, (i < length drafts)%nat → Z.of_nat i ∈ zs ↔ Z.of_nat i ∈ zs') →
            Spec.kept_positions zs drafts = Spec.kept_positions zs' drafts).
Proof.
  intros Hne Hraw Hdraft generate.
  assert (∀ reply, generate reply
                   = Some (Ai.filterBadQuestions trim JSON_parse drafts reply)) as Hgen.
  { intros reply. unfold generate, Ai.generateQuestions. cbn.
    rewrite (proj2 (String.eqb_neq _ _) Hraw), Hdraft.
    by destruct drafts. }
  assert ((length drafts =? 0)%nat = false) as Hlen by (by destruct drafts).
  split; [|split; [|split; [|split; [|split]]]].
  - rewrite Hgen. unfold Ai.filterBadQuestions. by rewrite Hlen.
  - rewrite Hgen. unfold Ai.filterBadQuestions. by rewrite Hlen.
  - intros reply Hempty. rewrite Hgen. unfold Ai.filterBadQuestions.
    rewrite Hlen. cbn. by rewrite Hempty.
  - intros reply Hparse. rewrite Hgen. unfold Ai.filterBadQuestions.
    rewrite Hlen. cbn. rewrite Hparse. by destruct (String.eqb _ _).
  - intros reply v Hparse Hshape. rewrite Hgen. unfold Ai.filterBadQuestions.
    rewrite Hlen. cbn. rewrite Hparse. destruct (String.eqb _ _); [done|].
    destruct v; try done. by destruct (Hshape items).
  - intros reply items zs Hreply Hparse Hint. split; [|split].
    + rewrite Hgen. unfold Ai.filterBadQuestions.
      rewrite Hlen. cbn. rewrite (proj2 (String.eqb_neq _ _) Hreply), Hparse.
      f_equal. by apply filter_index_kept.
    + apply kept_positions_sublist.
    + intros zs' Hsame. by apply kept_positions_in_range.
Qed.

Example clean_fenced_reply : Ai.clean (λ s, s) "```json[0, 7]```" = "[0, 7]".
Proof. reflexivity. Qed.

Lemma validation_fail_open_witness :
  sample_drafts ≠ [] ∧
  Ai.generateQuestions (λ s, s) sample_parse sample_parse_questions true
      (Ai.Resolved (Some "[...]")) (Ai.Resolved (Some "not json"))
    = Some sample_drafts ∧
  Ai.generateQuestions (λ s, s) sample_parse sample_parse_questions true
      (Ai.Resolved (Some "[...]")) (Ai.Resolved (Some "```json[0, 7]```"))
    = Some (Spec.kept_positions [0; 7] sample_drafts).
Proof.
  assert (sample_drafts ≠ []) as Hne by discriminate.
  assert ((λ s : string, s) "[...]" ≠ "") as Hraw by discriminate.
  pose proof (validation_fail_open (λ s, s) sample_parse sample_parse_questions
                "[...]" sample_drafts Hne Hraw eq_refl) as H.
  cbv zeta in H. destruct H as (_ & _ & _ & Hbad & _ & Hgood).
  split; [exact Hne|]. split.
  - apply Hbad. reflexivity.
  - apply (Hgood "```json[0, 7]```"
                 [Ai.JNum (inject_Z 0); Ai.JNum (inject_Z 7)] [0; 7]).
    + discriminate.
    + reflexivity.
    + repeat constructor; by eexists.
Defined.

(** ** Debias routine: the shuffle of one option list *)

Section ShuffleOptions.
Import Bot.
Implicit Types (opts : list string) (s : string).

Lemma insert_Permutation opts j b x :
  opts !! j = Some b → b :: <[j := x]> opts ≡ₚ x :: opts.
Proof.
  revert j. induction opts as [|y t IH]; intros [|j] Hj; try done.
  - cbn in *. simplify_eq. apply perm_swap.
  - cbn in *. rewrite perm_swap, (IH j Hj). apply perm_swap.
Qed.

Lemma swap_Permutation i j opts : swap i j opts ≡ₚ opts.
Proof.
  unfold swap. revert i j. induction opts as [|x t IH]; intros i j; [by destruct i|].
  destruct i as [|i], j as [|j]; cbn.
  - done.
  - destruct (t !! j) as [b|] eqn:Hj; [|done]. cbn.
    by apply insert_Permutation.
  - destruct (t !! i) as [a|] eqn:Hi; [|done]. cbn.
    by apply insert_Permutation.
  - specialize (IH i j).
    destruct (t !! i) as [a|], (t !! j) as [b|]; cbn; try done.
    by rewrite IH.
Qed.

Lemma fisher_yates_Permutation rnd i opts : fisher_yates rnd i opts ≡ₚ opts.
Proof.
  revert opts. induction i as [|i IH]; intros opts; [done|].
  cbn. rewrite IH. apply swap_Permutation.
Qed.

(** Under draws of [Math.random] the partner index stays inside the part
    of the array that is still to be shuffled. *)
Lemma partner_in_range (x : Q) (i : nat) :
  (0 <= x)%Q → (x < 1)%Q →
  (Z.to_nat (Qfloor (x * inject_Z (Z.of_nat i + 1))) ≤ i)%nat.
Proof.
  intros H0 H1.
  assert (0 ≤ Qfloor (x * inject_Z (Z.of_nat i + 1))) as Hlo.
  { change 0 with (Qfloor 0). apply Qfloor_resp_le.
    apply Qmult_le_0_compat; [done|].
    change 0%Q with (inject_Z 0). rewrite <- Zle_Qle. lia. }
  assert (Qfloor (x * inject_Z (Z.of_nat i + 1)) < Z.of_nat i + 1) as Hhi.
  { rewrite Zlt_Qlt. eapply Qle_lt_trans; [apply Qfloor_le|].
    rewrite <- (Qmult_1_l (inject_Z (Z.of_nat i + 1))) at 2.
    apply Qmult_lt_compat_r; [|done].
    change 0%Q with (inject_Z 0). rewrite <- Zlt_Qlt. lia. }
  lia.
Qed.

Lemma indexOf_from_found s opts :
  s ∈ opts →
  ∀ k, ∃ n, indexOf_from s k opts = k + Z.of_nat n ∧
            opts !! n = Some s ∧
            ∀ m, (m < n)%nat → opts !! m ≠ Some s.
Proof.
  induction opts as [|y t IH]; intros Hin k; [by apply elem_of_nil in Hin|].
  cbn. destruct (decide (y = s)) as [->|Hne].
  - exists O. split; [lia|]. split; [done|]. lia.
  - apply elem_of_cons in Hin as [->|Hin]; [done|].
    destruct (IH Hin (k + 1)) as (n & Hn & Hlook & Hfirst).
    exists (S n). split; [lia|]. split; [done|].
    intros [|m] Hm; cbn; [congruence|]. apply Hfirst. lia.
Qed.

Lemma indexOf_from_missing s opts k : s ∉ opts → indexOf_from s k opts = -1.
Proof.
  revert k. induction opts as [|y t IH]; intros k Hnot; [done|].
  cbn. apply not_elem_of_cons in Hnot as [Hne Hnot].
  rewrite decide_False by done. by apply IH.
Qed.

Lemma at_index_Some opts k s :
  at_index opts k = Some s ↔ 0 ≤ k ∧ opts !! Z.to_nat k = Some s.
Proof.
  unfold at_index. destruct (0 <=? k) eqn:E.
  - apply Z.leb_le in E. tauto.
  - apply Z.leb_gt in E. split; [done|lia].
Qed.

Lemma at_index_elem opts k s : at_index opts k = Some s → s ∈ opts.
Proof.
  rewrite at_index_Some. intros [_ Hk]. apply list_elem_of_lookup. eauto.
Qed.

(** [indexOf] finds the captured text again in any permutation. *)
Lemma indexOf_Permutation opts opts' k s :
  at_index opts k = Some s → opts' ≡ₚ opts →
  ∃ n, indexOf opts' (Some s) = Z.of_nat n ∧
       indexOf opts' (Some s) ≠ -1 ∧
       at_index opts' (Z.of_nat n) = Some s ∧
       (n < length opts)%nat ∧
       (∀ m, (m < n)%nat → opts' !! m ≠ Some s) ∧
       (NoDup opts → ∀ k', at_index opts' k' = Some s → k' = Z.of_nat n).
Proof.
  intros Hk Hperm. apply at_index_elem in Hk. rewrite <- Hperm in Hk.
  destruct (indexOf_from_found s opts' Hk 0) as (n & Hn & Hlook & Hfirst).
  exists n. cbn. rewrite Hn. split; [lia|]. split; [lia|].
  split; [apply at_index_Some; rewrite Nat2Z.id; split; [lia|done]|].
  split; [rewrite <- Hperm; by eapply lookup_lt_Some|].
  split; [done|].
  intros Hnd k' Hk'. apply at_index_Some in Hk' as [Hpos Hk'].
  rewrite <- Hperm in Hnd.
  rewrite <- (Z2Nat.id k') by done. f_equal.
  by apply (NoDup_lookup opts' _ _ s).
Qed.
End ShuffleOptions.

(** ** Debias routine: the batch *)

Section Batch.
Import Bot Spec.
Implicit Types (c : Chance) (q : Question) (w : World) (chance : Z → Chance).

Lemma shuffleQuestion_lost c q w :
  newCorrectIndex c q = -1 →
  shuffleQuestion c q w
    = (Next, mkWorld (db w) (images w) (errors w ++ [AnswerLost (id q)])).
Proof.
  unfold newCorrectIndex, shuffled, shuffleQuestion. by intros ->.
Qed.

Lemma shuffleQuestion_update_fails c q w :
  newCorrectIndex c q ≠ -1 → update_throws c = true →
  shuffleQuestion c q w = (Thrown, w).
Proof.
  unfold newCorrectIndex, shuffled, shuffleQuestion. intros Hidx ->.
  by rewrite (proj2 (Z.eqb_neq _ _) Hidx).
Qed.

Lemma shuffleQuestion_updates c q w :
  newCorrectIndex c q ≠ -1 → update_throws c = false →
  shuffleQuestion c q w
    = (Next,
       let st' := updateQuestionOptions (id q) (shuffled c q)
                                        (newCorrectIndex c q) (db w) in
       if render_throws c
       then mkWorld st' (images w) (errors w ++ [RegenerateFailed (id q)])
       else mkWorld st' (<[id q := (question_text q, shuffled c q)]> (images w))
                    (errors w)).
Proof.
  unfold newCorrectIndex, shuffled, shuffleQuestion. intros Hidx ->.
  rewrite (proj2 (Z.eqb_neq _ _) Hidx). by destruct (render_throws c).
Qed.

(** The database after the body of the loop. *)
Lemma shuffleQuestion_db c q w :
  db (shuffleQuestion c q w).2
    = if decide (newCorrectIndex c q = -1 ∨ update_throws c = true)
      then db w
      else updateQuestionOptions (id q) (shuffled c q) (newCorrectIndex c q) (db w).
Proof.
  destruct (decide (newCorrectIndex c q = -1)) as [Hlost|Hidx].
  { rewrite shuffleQuestion_lost by done. by rewrite decide_True by auto. }
  destruct (update_throws c) eqn:Hup.
  { rewrite shuffleQuestion_update_fails by done. by rewrite decide_True by auto. }
  rewrite shuffleQuestion_updates by done.
  rewrite decide_False by (by intros [?|?]).
  by destruct (render_throws c).
Qed.

Lemma shuffleLoop_app chance l1 l2 w :
  shuffleLoop chance (l1 ++ l2) w
    = match shuffleLoop chance l1 w with
      | (Next, w') => shuffleLoop chance l2 w'
      | (Thrown, w') => (Thrown, w')
      end.
Proof.
  revert w. induction l1 as [|q l1 IH]; intros w; [done|].
  cbn. destruct (shuffleQuestion _ q w) as [[] w']; [apply IH|done].
Qed.

Lemma shuffleLoop_no_throw chance l w :
  (∀ x, update_throws (chance x) = false) → (shuffleLoop chance l w).1 = Next.
Proof.
  intros Hok. revert w. induction l as [|q l IH]; intros w; [done|].
  cbn. destruct (decide (newCorrectIndex (chance (id q)) q = -1)).
  - rewrite shuffleQuestion_lost by done. apply IH.
  - rewrite shuffleQuestion_updates by done. apply IH.
Qed.

(** Processing rows with other ids leaves the row of id [x] alone. *)
Lemma shuffleQuestion_other c q w x :
  id q ≠ x →
  getQuestionById x (db (shuffleQuestion c q w).2) = getQuestionById x (db w).
Proof.
  intros Hne. rewrite shuffleQuestion_db. case_decide; [done|].
  unfold getQuestionById, updateQuestionOptions. cbn.
  by apply find_update_id_miss.
Qed.

Lemma shuffleLoop_other chance l w x :
  (∀ q, q ∈ l → id q ≠ x) →
  getQuestionById x (db (shuffleLoop chance l w).2) = getQuestionById x (db w).
Proof.
  revert w. induction l as [|q l IH]; intros w Hother; [done|].
  cbn. destruct (shuffleQuestion _ q w) as [[] w'] eqn:E.
  - rewrite IH by (intros; apply Hother; by right).
    replace w' with (shuffleQuestion (chance (id q)) q w).2 by (by rewrite E).
    apply shuffleQuestion_other. apply Hother. left.
  - replace w' with (shuffleQuestion (chance (id q)) q w).2 by (by rewrite E).
    apply shuffleQuestion_other. apply Hother. left.
Qed.

Lemma find_has_id_NoDup (qs : list Question) q :
  NoDup (id <$> qs) → q ∈ qs → List.find (has_id (id q)) qs = Some q.
Proof.
  intros Hnd Hin. induction qs as [|y t IH]; [by apply elem_of_nil in Hin|].
  cbn. destruct (has_id (id q) y) eqn:E.
  - apply has_id_true in E. f_equal.
    apply (distinct_ids (y :: t)); [done|left|done|done].
  - apply has_id_false in E.
    apply elem_of_cons in Hin as [->|Hin]; [done|].
    apply IH; [|done]. cbn in Hnd. by apply NoDup_cons_1_2 in Hnd.
Qed.

Lemma cleanRightAnswers_db chance w :
  db (cleanRightAnswers true chance w)
    = db (shuffleLoop chance (getAllQuestionsRaw (db w)) w).2.
Proof.
  unfold cleanRightAnswers, outer_catch.
  by destruct (shuffleLoop _ _ _) as [[] w'].
Qed.

Lemma shuffleLoop_app_next chance l1 l2 w :
  (shuffleLoop chance l1 w).1 = Next →
  shuffleLoop chance (l1 ++ l2) w
    = shuffleLoop chance l2 (shuffleLoop chance l1 w).2.
Proof.
  intros Hnext. rewrite shuffleLoop_app.
  destruct (shuffleLoop chance l1 w) as [[] w1]; done.
Qed.

Lemma shuffleLoop_cons_next chance q l w :
  (shuffleQuestion (chance (id q)) q w).1 = Next →
  shuffleLoop chance (q :: l) w
    = shuffleLoop chance l (shuffleQuestion (chance (id q)) q w).2.
Proof.
  intros Hnext. cbn. destruct (shuffleQuestion _ q w) as [[] w1]; done.
Qed.

Lemma shuffleQuestion_no_throw c q w :
  update_throws c = false → (shuffleQuestion c q w).1 = Next.
Proof.
  intros Hok. destruct (decide (newCorrectIndex c q = -1)).
  - by rewrite shuffleQuestion_lost.
  - by rewrite shuffleQuestion_updates.
Qed.

(** Ids before and after a row of a table with distinct ids. *)
Lemma split_distinct_ids (pre post : list Question) q :
  NoDup (id <$> (pre ++ q :: post)) →
  (∀ q', q' ∈ pre → id q' ≠ id q) ∧ (∀ q', q' ∈ post → id q' ≠ id q).
Proof.
  rewrite fmap_app, fmap_cons. intros (_ & Hpre & Hpost)%NoDup_app.
  apply NoDup_cons in Hpost as [Hpost _]. split.
  - intros q' Hq' Heq. apply (Hpre (id q')).
    + by apply list_elem_of_fmap_2.
    + rewrite Heq. left.
  - intros q' Hq' Heq. apply Hpost. rewrite <- Heq.
    by apply list_elem_of_fmap_2.
Qed.
End Batch.


Example shuffled_calm :
  Spec.shuffled calm question_B = ["b2"; "b3"; "b1"] ∧
  Spec.newCorrectIndex calm question_B = 0.
Proof. by vm_compute. Qed.


(** ** The structural invariant of stored questions *)

Section WellFormed.
Import Bot Spec.

Lemma elem_of_update_id qid f qs q' :
  q' ∈ update_id qid f qs →
  ∃ q0, q0 ∈ qs ∧ q' = if has_id qid q0 then f q0 else q0.
Proof.
  unfold update_id. intros (q0 & -> & Hq0)%list_elem_of_fmap. eauto.
Qed.

Lemma update_id_counts_well_formed qid f qs :
  (∀ q, answer_of (f q) = answer_of q) →
  (∀ q, q ∈ qs → well_formed q) →
  ∀ q, q ∈ update_id qid f qs → well_formed q.
Proof.
  intros Hf Hwf q (q0 & Hq0 & ->)%elem_of_update_id.
  destruct (has_id qid q0); [|by apply Hwf].
  specialize (Hwf q0 Hq0). specialize (Hf q0).
  unfold well_formed, answer_of in *. injection Hf as Ho Hc. by rewrite Ho, Hc.
Qed.

Lemma addVote_well_formed u qid p st :
  store_well_formed st → store_well_formed (addVote u qid p st).
Proof.
  intros Hwf. unfold addVote.
  destruct (votes st !! (u, qid)) as [v|]; [destruct (decide _); [done|]|];
    unfold store_well_formed; cbn;
    apply update_id_counts_well_formed; try done; intros; by destruct p.
Qed.

Lemma saveQuestion_well_formed now k text opts ci st :
  0 ≤ ci < Z.of_nat (length opts) → (2 ≤ length opts)%nat →
  store_well_formed st →
  store_well_formed (saveQuestion now k text opts ci st).2.
Proof.
  intros Hci Hlen Hwf q. cbn. rewrite elem_of_app, list_elem_of_singleton.
  intros [Hq| ->]; [by apply Hwf|done].
Qed.

(** One turn of the persistence loop. *)
Lemma saveGenerated_cons now k rt g gs w :
  ∃ w1,
    saveGenerated now k rt (g :: gs) w = saveGenerated now k rt gs w1 ∧
    db w1 = (saveQuestion now k (Ai.question g) (Ai.options g)
                          (Ai.correct_index g) (db w)).2.
Proof. unfold saveGenerated. cbn. destruct (rt _); by eexists. Qed.

Lemma saveGenerated_answers now k rt gs : ∀ w,
  answer_of <$> questions (db (saveGenerated now k rt gs w))
    = (answer_of <$> questions (db w)) ++ (candidate_answer <$> gs).
Proof.
  induction gs as [|g gs IH]; intros w; [by rewrite app_nil_r|].
  destruct (saveGenerated_cons now k rt g gs w) as (w1 & -> & Hdb).
  rewrite IH, Hdb. cbn. by rewrite fmap_app, <- app_assoc.
Qed.

Lemma saveGenerated_well_formed now k rt gs : ∀ w,
  Forall candidate_well_formed gs →
  store_well_formed (db w) →
  store_well_formed (db (saveGenerated now k rt gs w)).
Proof.
  induction gs as [|g gs IH]; intros w Hgs Hwf; [done|].
  apply Forall_cons in Hgs as [[Hci Hlen] Hgs].
  destruct (saveGenerated_cons now k rt g gs w) as (w1 & -> & Hdb).
  apply IH; [done|]. rewrite Hdb. by apply saveQuestion_well_formed.
Qed.

Lemma shuffleQuestion_well_formed c q w :
  well_formed q → store_well_formed (db w) →
  store_well_formed (db (shuffleQuestion c q w).2).
Proof.
  intros [Hci Hlen] Hwf. rewrite shuffleQuestion_db. case_decide as Hcase; [done|].
  intros q' (q0 & Hq0 & ->)%elem_of_update_id.
  destruct (has_id (id q) q0); [|by apply Hwf].
  assert (is_Some (at_index (options q) (correct_index q))) as [s Hs].
  { unfold at_index. rewrite (proj2 (Z.leb_le _ _)) by lia.
    apply lookup_lt_is_Some. lia. }
  assert (shuffled c q ≡ₚ options q) as Hperm by apply fisher_yates_Permutation.
  destruct (indexOf_Permutation (options q) (shuffled c q) _ s Hs Hperm)
    as (n & Hn & _ & _ & Hlt & _).
  unfold well_formed. cbn. unfold newCorrectIndex. rewrite Hs, Hn.
  rewrite (Permutation_length Hperm). lia.
Qed.

Lemma shuffleLoop_well_formed chance l : ∀ w,
  Forall well_formed l → store_well_formed (db w) →
  store_well_formed (db (shuffleLoop chance l w).2).
Proof.
  induction l as [|q l IH]; intros w Hl Hwf; [done|].
  apply Forall_cons in Hl as [Hq Hl]. cbn.
  pose proof (shuffleQuestion_well_formed (chance (id q)) q w Hq Hwf) as Hstep.
  destruct (shuffleQuestion _ q w) as [[] w']; [by apply IH|done].
Qed.

Lemma cleanRightAnswers_well_formed enabled chance w :
  store_well_formed (db w) →
  store_well_formed (db (cleanRightAnswers enabled chance w)).
Proof.
  intros Hwf. destruct enabled; [|done].
  rewrite cleanRightAnswers_db. apply shuffleLoop_well_formed; [|done].
  apply Forall_forall. apply Hwf.
Qed.
End WellFormed.

(** C7 (amended). The persistence loop of the message handler appends every
    generated candidate with its options and index as they are, so the store
    stays well formed when the candidates are; the shuffle batch, votes,
    selection and deletions keep a well-formed store well formed. *)
Theorem well_formed_preserved (w : Bot.World) :
  Spec.store_well_formed (Bot.db w) →
  (∀ now k rt gs,
     Spec.answer_of <$> questions (Bot.db (Bot.saveGenerated now k rt gs w))
       = (Spec.answer_of <$> questions (Bot.db w)) ++ (Spec.candidate_answer <$> gs)) ∧
  (∀ now k rt gs,
     Forall Spec.candidate_well_formed gs →
     Spec.store_well_formed (Bot.db (Bot.saveGenerated now k rt gs w))) ∧
  (∀ enabled chance,
     Spec.store_well_formed (Bot.db (Bot.cleanRightAnswers enabled chance w))) ∧
  (∀ u q p, Spec.store_well_formed (addVote u q p (Bot.db w))) ∧
  (∀ rnd now k u,
     Spec.store_well_formed (getRandomQuestion rnd now k u (Bot.db w)).2) ∧
  (∀ qid, Spec.store_well_formed (deleteQuestion qid (Bot.db w))) ∧
  (∀ k, Spec.store_well_formed (clearQuestions k (Bot.db w))).
Proof.
  intros Hwf.
  split; [intros; apply saveGenerated_answers|].
  split; [intros; by apply saveGenerated_well_formed|].
  split; [intros; by apply cleanRightAnswers_well_formed|].
  split; [intros; by apply addVote_well_formed|].
  split.
  { intros rnd now k u q. rewrite getRandomQuestion_questions. apply Hwf. }
  split.
  - intros qid q. cbn. rewrite list_elem_of_filter. intros [_ Hq]. by apply Hwf.
  - intros k q. cbn. rewrite list_elem_of_filter. intros [_ Hq]. by apply Hwf.
Qed.

Lemma fresh_store_well_formed : Spec.store_well_formed fresh_store.
Proof.
  intros q Hq. cbn in Hq.
  repeat (apply elem_of_cons in Hq as [->|Hq]; [split; cbn; lia|]).
  by apply elem_of_nil in Hq.
Defined.

Lemma well_formed_preserved_witness :
  Spec.store_well_formed (Bot.db fresh_world) ∧
  Spec.store_well_formed
    (Bot.db (Bot.cleanRightAnswers true (λ _, calm) fresh_world)).
Proof.
  split; [exact fresh_store_well_formed|].
  destruct (well_formed_preserved fresh_world fresh_store_well_formed)
    as (_ & _ & Hshuffle & _).
  apply Hshuffle.
Defined.

(** C7, as stated, fails: nothing between [generateQuestions] and
    [saveQuestion] rejects a candidate; one with duplicate options and an
    index outside them is stored as it is. *)
Lemma broken_candidate_stored :
  getQuestionById 4
    (Bot.db (Bot.saveGenerated 1700000000 "Physics" (λ _, false)
               [broken_candidate] fresh_world))
    = Some (mkQuestion 4 "Physics" "Which one?" ["x"; "x"] 5 1700000000 0 0) ∧
  ¬ Spec.store_well_formed
      (Bot.db (Bot.saveGenerated 1700000000 "Physics" (λ _, false)
                 [broken_candidate] fresh_world)).
Proof.
  split; [reflexivity|].
  intros Hwf.
  destruct (Hwf (mkQuestion 4 "Physics" "Which one?" ["x"; "x"] 5 1700000000 0 0))
    as [[_ Hci] _].
  - cbn. do 3 right. left.
  - cbn in Hci. lia.
Qed.

(** ** Debias routine: failures *)




(** ** Quality ledger: counters and stored votes *)

Section Ledger.
Import Spec.
Implicit Types (m : gmap (Z * Z) Z) (st : Store).

Local Abbreviation ind P := (if decide P then 1 else 0) (only parsing).

Lemma count_votes_insert_fresh qid v m k x :
  m !! k = None →
  count_votes qid v (<[k := x]> m)
    = count_votes qid v m + ind (votes_for qid v (k, x)).
Proof.
  intros Hk. unfold count_votes. rewrite map_filter_insert. case_decide.
  - rewrite map_size_insert_None; [lia|].
    apply map_lookup_filter_None. by left.
  - rewrite delete_id by done. lia.
Qed.

Lemma count_votes_insert qid v m k x :
  count_votes qid v (<[k := x]> m)
    = count_votes qid v m
      - match m !! k with Some y => ind (votes_for qid v (k, y)) | None => 0 end
      + ind (votes_for qid v (k, x)).
Proof.
  destruct (m !! k) as [y|] eqn:Hk.
  - rewrite <- (insert_delete_eq m).
    rewrite count_votes_insert_fresh by apply lookup_delete_eq.
    rewrite <- (insert_delete_id m k y Hk) at 2.
    rewrite (count_votes_insert_fresh _ _ (delete k m)) by apply lookup_delete_eq.
    lia.
  - rewrite count_votes_insert_fresh by done. lia.
Qed.

Lemma count_votes_none qid v m :
  (∀ u w, m !! (u, qid) = Some w → False) → count_votes qid v m = 0.
Proof.
  intros Hnone. unfold count_votes.
  assert (filter (votes_for qid v) m = ∅) as ->; [|by rewrite map_size_empty].
  apply map_empty. intros [u q']. apply map_lookup_filter_None.
  destruct (m !! (u, q')) as [w|] eqn:E; [right|by left].
  intros x [= <-] [Hq _]. cbn in Hq. subst q'. eauto.
Qed.

Lemma count_votes_delete_other qid qid' v m :
  qid' ≠ qid →
  count_votes qid' v (filter (λ kv, kv.1.2 ≠ qid) m) = count_votes qid' v m.
Proof.
  intros Hne. unfold count_votes. f_equal. f_equal.
  apply map_filter_filter_l. intros [u q'] w _ [Hq _]. cbn in *. congruence.
Qed.

Lemma ledger_empty : ledger_inv Db.empty.
Proof.
  split.
  - intros q Hq. by apply elem_of_nil in Hq.
  - intros k v Hk. cbn in Hk. by rewrite lookup_empty in Hk.
  - intros u qid v Hk. cbn in Hk. by rewrite lookup_empty in Hk.
  - intros q Hq. by apply elem_of_nil in Hq.
Qed.

Lemma ledger_saveQuestion now k text opts ci st :
  ledger_inv st → ledger_inv (saveQuestion now k text opts ci st).2.
Proof.
  intros [Hcount Hpolar Hvotes Hids]. split; cbn.
  - intros q [Hq| ->%list_elem_of_singleton]%elem_of_app; [by apply Hcount|].
    cbn. rewrite !count_votes_none; [done|..];
      intros u w Hw; apply Hvotes in Hw; lia.
  - done.
  - intros u qid v Hv. apply Hvotes in Hv. lia.
  - intros q [Hq| ->%list_elem_of_singleton]%elem_of_app; [|cbn; lia].
    apply Hids in Hq. lia.
Qed.

Lemma ledger_addVote u qid p st :
  (∃ q, q ∈ questions st ∧ id q = qid) →
  ledger_inv st → ledger_inv (addVote u qid p st).
Proof.
  intros (q0 & Hq0 & Hq0id) [Hcount Hpolar Hvotes Hids].
  assert (qid ≤ seq st) as Hqid by (rewrite <- Hq0id; by apply Hids).
  unfold addVote. destruct (votes st !! (u, qid)) as [old|] eqn:Hold.
  { destruct (decide (old = voteVal p)) as [->|Hflip]; [by split|].
    split; cbn [questions votes seq].
    - intros q' (q & Hq & ->)%elem_of_update_id.
      destruct (Hcount q Hq) as [Hup Hdown]. cbn [votes].
      rewrite !count_votes_insert, Hold.
      destruct (Hpolar _ _ Hold) as [-> | ->];
        unfold has_id; case_bool_decide; destruct p; cbn in *;
        unfold votes_for; cbn; repeat case_decide; try lia; try tauto;
        destruct_and?; try lia; try tauto.
    - intros k v. rewrite lookup_insert_Some.
      intros [[_ <-]|[_ Hv]]; [destruct p; auto|by eapply Hpolar].
    - intros u' qid' v. rewrite lookup_insert_Some.
      intros [[[= <- <-] _]|[_ Hv]]; [done|by eapply Hvotes].
    - intros q' (q & Hq & ->)%elem_of_update_id.
      specialize (Hids q Hq). destruct (has_id qid q), p; done. }
  split; cbn [questions votes seq].
  - intros q' (q & Hq & ->)%elem_of_update_id.
    destruct (Hcount q Hq) as [Hup Hdown]. cbn [votes].
    rewrite !count_votes_insert, Hold.
    unfold has_id; case_bool_decide; destruct p; cbn in *;
      unfold votes_for; cbn; repeat case_decide; try lia; try tauto;
      destruct_and?; try lia; try tauto.
  - intros k v. rewrite lookup_insert_Some.
    intros [[_ <-]|[_ Hv]]; [destruct p; auto|by eapply Hpolar].
  - intros u' qid' v. rewrite lookup_insert_Some.
    intros [[[= <- <-] _]|[_ Hv]]; [done|by eapply Hvotes].
  - intros q' (q & Hq & ->)%elem_of_update_id.
    specialize (Hids q Hq). destruct (has_id qid q), p; done.
Qed.

Lemma ledger_deleteQuestion qid st :
  ledger_inv st → ledger_inv (deleteQuestion qid st).
Proof.
  intros [Hcount Hpolar Hvotes Hids]. unfold deleteQuestion.
  split; cbn [questions votes seq].
  - intros q [Hne Hq]%list_elem_of_filter. cbn [votes].
    rewrite !count_votes_delete_other by done. by apply Hcount.
  - intros k v [Hv _]%map_lookup_filter_Some. by eapply Hpolar.
  - intros u q v [Hv _]%map_lookup_filter_Some. by eapply Hvotes.
  - intros q [_ Hq]%list_elem_of_filter. by apply Hids.
Qed.

Lemma ledger_clearQuestions k st :
  ledger_inv st → ledger_inv (clearQuestions k st).
Proof.
  intros [Hcount Hpolar Hvotes Hids]. unfold clearQuestions, set_questions.
  split; cbn [questions votes seq]; [|done..|].
  - intros q [_ Hq]%list_elem_of_filter. by apply Hcount.
  - intros q [_ Hq]%list_elem_of_filter. by apply Hids.
Qed.
End Ledger.

Lemma find_new_row (qs : list Question) (new : Question) :
  (∀ q, q ∈ qs → id q < id new) →
  List.find (has_id (id new)) (qs ++ [new]) = Some new.
Proof.
  induction qs as [|q qs IH]; intros Hids; cbn.
  - by rewrite (proj2 (has_id_true (id new) new)).
  - rewrite (proj2 (has_id_false (id new) q)).
    + apply IH. intros q' Hq'. apply Hids. by right.
    + specialize (Hids q ltac:(left)). lia.
Qed.

Lemma getQuestionById_elem qid st :
  is_Some (getQuestionById qid st) → ∃ q, q ∈ questions st ∧ id q = qid.
Proof.
  intros [q Hq]. apply List.find_some in Hq as [Hin Hid].
  exists q. split; [by apply list_elem_of_In|by apply has_id_true].
Qed.

(** C10. The counters of every stored question equal the numbers of stored
    approving and rejecting votes for it.  This holds in the empty store;
    a newly saved question has counters (0, 0) and no votes; and the
    property survives every vote on a stored question, every deletion of a
    question and every clearing of a study key. *)
Theorem ledger_consistent (st : Store) :
  Spec.ledger_inv st →
  Spec.ledger_ok st ∧
  Spec.ledger_inv Db.empty ∧
  (∀ now k text opts ci,
     let new_id := (saveQuestion now k text opts ci st).1 in
     let st' := (saveQuestion now k text opts ci st).2 in
     Spec.ledger_inv st' ∧
     getQuestionStats new_id st' = (0, 0) ∧
     (∀ u, votes st' !! (u, new_id) = None)) ∧
  (∀ u qid p, is_Some (getQuestionById qid st) →
              Spec.ledger_inv (addVote u qid p st)) ∧
  (∀ qid, Spec.ledger_inv (deleteQuestion qid st)) ∧
  (∀ k, Spec.ledger_inv (clearQuestions k st)).
Proof.
  intros Hinv.
  split; [by destruct Hinv|]. split; [apply ledger_empty|].
  split; [|split; [|split]].
  - intros now k text opts ci new_id st'.
    split; [by apply ledger_saveQuestion|]. split.
    + pose proof (find_new_row (questions st)
                    (mkQuestion (seq st + 1) k text opts ci now 0 0)) as Hfind.
      cbn [id] in Hfind.
      rewrite stats_find. unfold getQuestionById, st', new_id, saveQuestion.
      cbn [fst snd questions]. rewrite Hfind; [done|].
      intros q Hq. pose proof (Spec.ledger_ids_known st Hinv q Hq). lia.
    + intros u. cbn. destruct (votes st !! (u, seq st + 1)) as [v|] eqn:Hv; [|done].
      pose proof (Spec.ledger_votes_known st Hinv _ _ _ Hv). lia.
  - intros u qid p Hrow. apply ledger_addVote; [|done].
    by apply getQuestionById_elem.
  - intros qid. by apply ledger_deleteQuestion.
  - intros k. by apply ledger_clearQuestions.
Qed.

Lemma ledger_consistent_witness :
  Spec.ledger_inv Db.empty ∧
  Spec.ledger_ok
    (addVote 7 1 true
       (saveQuestion 1700000000 "Physics" "What does Newton's first law state?"
                     ["Inertia"; "Gravity"] 0 Db.empty).2).
Proof.
  split; [exact ledger_empty|].
  destruct (ledger_consistent Db.empty ledger_empty) as (_ & _ & Hsave & _).
  specialize (Hsave 1700000000 "Physics" "What does Newton's first law state?"
                    ["Inertia"; "Gravity"] 0).
  cbv zeta in Hsave. destruct Hsave as (Hinv & _).
  destruct (ledger_consistent _ Hinv) as (_ & _ & _ & Hvote & _).
  exact (proj1 (ledger_consistent _ (Hvote 7 1 true ltac:(by eexists)))).
Defined.

(** C9. [deleteQuestion] removes the votes of the question it deletes, but
    [clearQuestions] deletes from [questions] only: after a vote of user 7
    on question 1, clearing the study key removes the question and leaves
    the vote row (7, 1) in place. *)
Theorem votes_cascade :
  (∀ st qid u, votes (deleteQuestion qid st) !! (u, qid) = None) ∧
  (let st := addVote 7 1 true sample_store in
   votes st !! (7, 1) = Some 1 ∧
   questions (clearQuestions "Physics" st) = [] ∧
   votes (clearQuestions "Physics" st) !! (7, 1) = Some 1).
Proof.
  split.
  - intros st qid u. cbn. apply map_lookup_filter_None. right.
    intros v _ Hne. by apply Hne.
  - by vm_compute.
Qed.

(** * Further properties of the code *)

(** ** User tables *)

Section UserTables.
Import Accounts.
Import Stdlib.Strings.Ascii.
Implicit Types (t : Tables) (u : Z).

Lemma getUserStudyKey_setUserStudyKey u key t :
  getUserStudyKey u (setUserStudyKey u key t) = Some key.
Proof.
  unfold getUserStudyKey, setUserStudyKey. cbn. rewrite lookup_insert_eq.
  by destruct (users t !! u).
Qed.

Lemma isTrusted_setUserStudyKey u key t :
  isTrusted u (setUserStudyKey u key t) = isTrusted u t.
Proof.
  unfold isTrusted, setUserStudyKey. cbn. rewrite lookup_insert_eq.
  by destruct (users t !! u).
Qed.

Lemma isTrusted_setTrusted u flag t : isTrusted u (setTrusted u flag t) = flag.
Proof.
  unfold isTrusted, setTrusted. cbn. rewrite lookup_insert_eq.
  by destruct (users t !! u).
Qed.

Lemma getUserStudyKey_setTrusted u flag t :
  getUserStudyKey u (setTrusted u flag t) = getUserStudyKey u t.
Proof.
  unfold getUserStudyKey, setTrusted. cbn. rewrite lookup_insert_eq.
  by destruct (users t !! u).
Qed.

Lemma users_setTrusted_other u u' flag t :
  u' ≠ u → users (setTrusted u flag t) !! u' = users t !! u'.
Proof. intros Hne. unfold setTrusted. cbn. by rewrite lookup_insert_ne. Qed.

(** X1. After [setUserStudyKey] the user's current study key is the given
    one; the user's trust flag, every other user and the usernames are as
    before. *)
Theorem setUserStudyKey_round_trip u key t :
  getUserStudyKey u (setUserStudyKey u key t) = Some key ∧
  isTrusted u (setUserStudyKey u key t) = isTrusted u t ∧
  (∀ u', u' ≠ u → users (setUserStudyKey u key t) !! u' = users t !! u') ∧
  usernames (setUserStudyKey u key t) = usernames t.
Proof.
  split_and!.
  - apply getUserStudyKey_setUserStudyKey.
  - apply isTrusted_setUserStudyKey.
  - intros u' Hne. unfold setUserStudyKey. cbn. by rewrite lookup_insert_ne.
  - done.
Qed.

(** X2. After [setTrusted] the user's trust flag is the given one; the
    user's study key (none for a user seen for the first time), every other
    user and the usernames are as before, and a user without a row is not
    trusted. *)
Theorem setTrusted_round_trip u flag t :
  isTrusted u (setTrusted u flag t) = flag ∧
  getUserStudyKey u (setTrusted u flag t) = getUserStudyKey u t ∧
  (∀ u', u' ≠ u → users (setTrusted u flag t) !! u' = users t !! u') ∧
  usernames (setTrusted u flag t) = usernames t ∧
  (users t !! u = None → isTrusted u t = false ∧ getUserStudyKey u t = None).
Proof.
  split_and!.
  - apply isTrusted_setTrusted.
  - apply getUserStudyKey_setTrusted.
  - intros u' Hne. by apply users_setTrusted_other.
  - done.
  - unfold isTrusted, getUserStudyKey. by intros ->.
Qed.

Lemma remove_first_absent c name :
  c ∉ String.list_ascii_of_string name → remove_first c name = name.
Proof.
  induction name as [|a rest IH]; intros Hnot; [done|].
  cbn in *. apply not_elem_of_cons in Hnot as [Hne Hnot].
  rewrite (proj2 (Ascii.eqb_neq a c)) by congruence. by rewrite IH.
Qed.

(** X3. A username without an at-sign that the middleware records for a
    sender is found again, with or without a leading at-sign, and resolves
    to that sender (the last one recorded under the name); the users table
    is not touched. *)
Theorem username_round_trip u name t :
  u ≠ 0 → name ≠ "" →
  "@"%char ∉ String.list_ascii_of_string name →
  ∃ t', Handlers.middleware (Some u) (Some name) t = Some t' ∧
        getUserIdByUsername name t' = Some u ∧
        getUserIdByUsername (String ("@"%char) name) t' = Some u ∧
        users t' = users t ∧
        (∀ other, remove_first ("@"%char) other ≠ name →
                  getUserIdByUsername other t' = getUserIdByUsername other t).
Proof.
  intros Hu Hname Hat. unfold Handlers.middleware.
  rewrite (proj2 (Z.eqb_neq u 0)) by done.
  rewrite (proj2 (String.eqb_neq name "")) by done.
  eexists. split; [done|].
  unfold getUserIdByUsername, saveUsername. cbn [usernames users].
  rewrite (remove_first_absent _ name Hat). split_and!.
  - apply lookup_insert_eq.
  - cbn. apply lookup_insert_eq.
  - done.
  - intros other Hother. by rewrite lookup_insert_ne.
Qed.

Lemma username_round_trip_witness :
  getUserIdByUsername "@alice"
    (saveUsername 7 "alice" no_accounts) = Some 7.
Proof.
  destruct (username_round_trip 7 "alice" no_accounts) as (t' & Ht' & _ & Hat & _).
  - lia.
  - discriminate.
  - cbn. rewrite !elem_of_cons, elem_of_nil. intros H.
    repeat (destruct H as [H|H]; [discriminate H|]). done.
  - cbn in Ht'. injection Ht' as <-. exact Hat.
Defined.
End UserTables.

(** ** Splitting command texts and callback data *)

Section Splitting.
Import Handlers.
Import Stdlib.Strings.Ascii.
Implicit Types (c : ascii) (s : string).

Lemma split_pieces_absent c s :
  c ∉ String.list_ascii_of_string s → split_pieces c s = (s, []).
Proof.
  induction s as [|a rest IH]; intros Hnot; [done|].
  cbn [split_pieces String.list_ascii_of_string] in *.
  apply not_elem_of_cons in Hnot as [Hne Hnot].
  rewrite (IH Hnot). by rewrite (proj2 (Ascii.eqb_neq a c)) by congruence.
Qed.

Lemma split_absent c s :
  c ∉ String.list_ascii_of_string s → split c s = [s].
Proof. intros Hnot. unfold split. by rewrite split_pieces_absent. Qed.

Lemma append_cons a s rest :
  (String a s ++ rest)%string = String a (s ++ rest)%string.
Proof. reflexivity. Qed.

Lemma append_nil_l s : ("" ++ s)%string = s.
Proof. reflexivity. Qed.

(** The piece before the first separator is split off. *)
Lemma split_app c s rest :
  c ∉ String.list_ascii_of_string s →
  split c (s ++ String c rest) = s :: split c rest.
Proof.
  unfold split. induction s as [|a s IH]; intros Hnot;
    rewrite ?append_nil_l, ?append_cons; cbn [split_pieces].
  - destruct (split_pieces c rest). by rewrite Ascii.eqb_refl.
  - cbn in Hnot. apply not_elem_of_cons in Hnot as [Hne Hnot].
    specialize (IH Hnot). destruct (split_pieces c (s ++ String c rest)).
    rewrite (proj2 (Ascii.eqb_neq a c)) by congruence.
    destruct (split_pieces c rest). by simplify_eq.
Qed.

(** Joining the pieces with the separator gives the string back. *)
Lemma join_split c s : String.concat (String c "") (split c s) = s.
Proof.
  unfold split. induction s as [|a s IH]; [done|].
  cbn [split_pieces]. destruct (split_pieces c s) as [piece more].
  destruct (Ascii.eqb a c) eqn:E.
  - apply Ascii.eqb_eq in E as ->. cbn in *. by rewrite IH.
  - cbn in *. destruct more; cbn in *; by rewrite <- IH.
Qed.
End Splitting.

(** ** Commands *)

Section CommandFacts.
Import Accounts Handlers.
Import Stdlib.Strings.Ascii.
Variable parseInt : string → option Z.
Variable adminId : Z.

Lemma trustCommand_cases grant fromId text t :
  (∃ reply, trustCommand parseInt adminId grant fromId text t = (t, reply) ∧
            (fromId ≠ Some adminId → reply = NotAdmin) ∧
            ∀ n, reply ≠ TrustSet n) ∨
  (∃ n, n ≠ 0 ∧ fromId = Some adminId ∧
        trustCommand parseInt adminId grant fromId text t
          = (setTrusted n grant t, TrustSet n)).
Proof.
  unfold trustCommand. case_bool_decide as Hadmin; [|left; by eexists].
  destruct (_ !! 1%nat) as [target|]; [|left; by eexists].
  destruct (String.eqb target ""); [left; by eexists|].
  destruct (if String.prefix "@" target then _ else _) as [n|]; [|left; by eexists].
  destruct (n =? 0) eqn:Hn; [left; by eexists|].
  right. exists n. apply Z.eqb_neq in Hn. done.
Qed.

(** X4. Whatever the /add or /remove command is given, it changes nothing
    unless the sender is the admin; it never changes a study key or a
    username; and a trust flag that differs afterwards is that of the
    single, non-zero user the command names in its answer, now equal to the
    flag of the command. *)
Theorem trustCommand_only_admin grant fromId text t :
  let r := trustCommand parseInt adminId grant fromId text t in
  (fromId ≠ Some adminId → r = (t, NotAdmin)) ∧
  (∀ u, getUserStudyKey u r.1 = getUserStudyKey u t) ∧
  usernames r.1 = usernames t ∧
  (∀ u, isTrusted u r.1 ≠ isTrusted u t →
        fromId = Some adminId ∧ r.2 = TrustSet u ∧ u ≠ 0 ∧ isTrusted u r.1 = grant).
Proof.
  intros r. subst r.
  destruct (trustCommand_cases grant fromId text t)
    as [(reply & -> & Hnot & _)|(n & Hn & Hadmin & ->)]; cbn [fst snd].
  - split_and!; try done. intros Hne. by rewrite Hnot.
  - split; [done|]. split.
    { intros u. destruct (decide (u = n)) as [->|Hne].
      - apply getUserStudyKey_setTrusted.
      - unfold getUserStudyKey. by rewrite users_setTrusted_other. }
    split; [done|].
    intros u Hdiff. destruct (decide (u = n)) as [->|Hne].
    + split_and!; try done. apply isTrusted_setTrusted.
    + exfalso. apply Hdiff. unfold isTrusted. by rewrite users_setTrusted_other.
Qed.

(** X5. Sent by the admin, the command followed by an at-sign and a recorded
    username, or by text that [parseInt] reads as a non-zero id, sets the
    trust flag of exactly that user. *)
Theorem trustCommand_sets_flag grant cmd target uid t :
  " "%char ∉ String.list_ascii_of_string cmd →
  " "%char ∉ String.list_ascii_of_string target →
  target ≠ "" → uid ≠ 0 →
  (if String.prefix "@" target
   then getUserIdByUsername target t else parseInt target) = Some uid →
  trustCommand parseInt adminId grant (Some adminId)
               (Some (cmd ++ String " " target)%string) t
    = (setTrusted uid grant t, TrustSet uid) ∧
  isTrusted uid (setTrusted uid grant t) = grant.
Proof.
  intros Hcmd Htarget Hne Huid Hres. split; [|apply isTrusted_setTrusted].
  unfold trustCommand. rewrite bool_decide_eq_true_2 by done.
  rewrite split_app, split_absent by done. cbn [lookup list_lookup].
  rewrite (proj2 (String.eqb_neq target "")) by done.
  rewrite Hres. by rewrite (proj2 (Z.eqb_neq uid 0)).
Qed.
End CommandFacts.

Lemma not_in_string_dec (c : Ascii.ascii) (s : string) :
  bool_decide (c ∉ String.list_ascii_of_string s) = true →
  c ∉ String.list_ascii_of_string s.
Proof. apply bool_decide_eq_true_1. Qed.

Lemma trustCommand_sets_flag_witness :
  Accounts.isTrusted 7
    (Handlers.trustCommand (λ _, None) 1 true (Some 1) (Some "/add @alice")
       (Accounts.saveUsername 7 "alice" Accounts.no_accounts)).1 = true.
Proof.
  destruct (trustCommand_sets_flag (λ _, None) 1 true "/add" "@alice" 7
              (Accounts.saveUsername 7 "alice" Accounts.no_accounts))
    as [Hcmd Hflag].
  - by apply not_in_string_dec.
  - by apply not_in_string_dec.
  - discriminate.
  - lia.
  - reflexivity.
  - exact (eq_trans (f_equal (λ r, Accounts.isTrusted 7 r.1) Hcmd) Hflag).
Defined.

Section CallbackFacts.
Import Accounts Catalog Handlers.
Import Stdlib.Strings.Ascii.

Lemma prefix_append (a b : string) : String.prefix a (a ++ b)%string = true.
Proof.
  induction a as [|c a IH].
  - rewrite append_nil_l. by destruct b.
  - rewrite append_cons. cbn [String.prefix].
    by destruct (Ascii.ascii_dec c c).
Qed.

Lemma append_assoc (a b c : string) :
  ((a ++ b) ++ c)%string = (a ++ (b ++ c))%string.
Proof.
  induction a as [|x a IH]; [by rewrite !append_nil_l|].
  by rewrite !append_cons, IH.
Qed.

Lemma clearQuestions_count k st :
  getQuestionCount k (clearQuestions k st) = 0.
Proof.
  unfold getQuestionCount, clearQuestions, set_questions. cbn [questions].
  rewrite list_filter_filter.
  assert (filter (λ q, study_key q = k ∧ study_key q ≠ k) (questions st) = [])
    as ->; [|done].
  induction (questions st) as [|q qs IH]; [done|].
  rewrite filter_cons_False; [done|]. by intros [? ?].
Qed.

(** X6. The data on the buttons of the /clean confirmation is read back by
    [split]: for a study key without a colon, confirming clears exactly that
    key (its question count becomes 0) and any other action changes nothing.
    A key that contains a colon is read only up to the colon, and what
    follows is taken for the action: for the key [k:confirm] both buttons
    clear the key [k]. *)
Theorem cleanCallback_round_trip studyKey st :
  ":"%char ∉ String.list_ascii_of_string studyKey →
  cleanCallback (cleanData studyKey "confirm") st = clearQuestions studyKey st ∧
  getQuestionCount studyKey (cleanCallback (cleanData studyKey "confirm") st) = 0 ∧
  (∀ action, ":"%char ∉ String.list_ascii_of_string action →
             action ≠ "confirm" →
             cleanCallback (cleanData studyKey action) st = st) ∧
  (∀ action, cleanCallback (cleanData (studyKey ++ ":confirm") action) st
             = clearQuestions studyKey st).
Proof.
  intros Hkey.
  assert (∀ rest, split ":"%char (cleanData studyKey rest)
                  = "clean" :: studyKey :: split ":"%char rest) as Hsplit.
  { intros rest. unfold cleanData.
    change ("clean:" ++ studyKey ++ ":" ++ rest)%string
      with ("clean" ++ String ":" (studyKey ++ String ":" rest))%string.
    rewrite split_app by (by apply not_in_string_dec).
    by rewrite split_app. }
  assert (∀ rest, String.prefix "clean:" (cleanData studyKey rest) = true)
    as Hprefix by (intros; apply prefix_append).
  assert (cleanCallback (cleanData studyKey "confirm") st
          = clearQuestions studyKey st) as Hconfirm.
  { unfold cleanCallback. rewrite Hprefix, Hsplit. reflexivity. }
  split; [done|]. split; [rewrite Hconfirm; apply clearQuestions_count|]. split.
  - intros action Haction Hne. unfold cleanCallback. rewrite Hsplit.
    rewrite split_absent by done.
    cbn [lookup list_lookup]. rewrite (proj2 (String.eqb_neq action "confirm")) by done.
    by destruct (String.prefix _ _).
  - intros action. unfold cleanCallback.
    assert (cleanData (studyKey ++ ":confirm") action
            = cleanData studyKey ("confirm" ++ String ":" action)) as ->.
    { unfold cleanData. by rewrite append_assoc. }
    rewrite Hprefix, Hsplit. rewrite split_app by (by apply not_in_string_dec).
    reflexivity.
Qed.
End CallbackFacts.

Lemma cleanCallback_round_trip_witness :
  Catalog.getQuestionCount "Physics" fresh_store = 3 ∧
  Catalog.getQuestionCount "Physics"
    (Handlers.cleanCallback (Handlers.cleanData "Physics" "confirm") fresh_store) = 0.
Proof.
  split; [reflexivity|].
  apply (cleanCallback_round_trip "Physics" fresh_store).
  by apply not_in_string_dec.
Defined.

Section SelectionCommands.
Import Accounts Handlers.
Import Stdlib.Strings.Ascii.

(** X7. The data on a study-key button is read back by [split]: pressing
    the button of a non-empty key without a colon makes it the sender's
    current study key (user 0 when the sender is unknown); of a key that
    contains a colon only the part before the first colon is set. *)
Theorem studySelectCallback_round_trip key fromId t :
  ":"%char ∉ String.list_ascii_of_string key → key ≠ "" →
  studySelectCallback (studySelectData key) fromId t
    = setUserStudyKey (default 0 fromId) key t ∧
  getUserStudyKey (default 0 fromId)
    (studySelectCallback (studySelectData key) fromId t) = Some key ∧
  (∀ rest, studySelectCallback (studySelectData (key ++ String ":" rest)) fromId t
           = setUserStudyKey (default 0 fromId) key t).
Proof.
  intros Hkey Hne.
  assert (∀ rest, studySelectCallback
                    (studySelectData (key ++ String ":" rest)) fromId t
                  = setUserStudyKey (default 0 fromId) key t) as Hcut.
  { intros rest. unfold studySelectCallback, studySelectData.
    rewrite prefix_append.
    change ("study_select:" ++ key ++ String ":" rest)%string
      with ("study_select" ++ String ":" (key ++ String ":" rest))%string.
    rewrite split_app by (by apply not_in_string_dec).
    rewrite split_app by done. cbn [lookup list_lookup].
    by rewrite (proj2 (String.eqb_neq key "")). }
  assert (studySelectCallback (studySelectData key) fromId t
          = setUserStudyKey (default 0 fromId) key t) as Hset.
  { unfold studySelectCallback, studySelectData.
    rewrite prefix_append.
    change ("study_select:" ++ key)%string
      with ("study_select" ++ String ":" key)%string.
    rewrite split_app by (by apply not_in_string_dec).
    rewrite split_absent by done. cbn [lookup list_lookup].
    by rewrite (proj2 (String.eqb_neq key "")). }
  split; [done|]. split; [|done].
  rewrite Hset. apply getUserStudyKey_setUserStudyKey.
Qed.

(** X8. The /study command takes everything after the first space as the
    key, inner spaces included, and makes it the sender's current study key
    (user 0 when the sender is unknown); without a text, or without
    anything after the command word, nothing is set. *)
Theorem studyCommand_sets_key cmd key fromId t :
  " "%char ∉ String.list_ascii_of_string cmd → key ≠ "" →
  studyCommand fromId (Some (cmd ++ String " " key)%string) t
    = (setUserStudyKey (default 0 fromId) key t, Some key) ∧
  getUserStudyKey (default 0 fromId)
    (studyCommand fromId (Some (cmd ++ String " " key)%string) t).1 = Some key ∧
  studyCommand fromId (Some cmd) t = (t, None) ∧
  studyCommand fromId None t = (t, None).
Proof.
  intros Hcmd Hne.
  assert (studyCommand fromId (Some (cmd ++ String " " key)%string) t
          = (setUserStudyKey (default 0 fromId) key t, Some key)) as Hset.
  { unfold studyCommand. rewrite split_app by done. cbn [tail].
    rewrite (join_split " "%char key).
    by rewrite (proj2 (String.eqb_neq key "")). }
  split; [done|]. split; [rewrite Hset; apply getUserStudyKey_setUserStudyKey|].
  split; [|done].
  unfold studyCommand. by rewrite split_absent.
Qed.
End SelectionCommands.

Lemma studySelectCallback_round_trip_witness :
  Accounts.getUserStudyKey 7
    (Handlers.studySelectCallback (Handlers.studySelectData "Physics") (Some 7)
       Accounts.no_accounts) = Some "Physics".
Proof.
  apply (studySelectCallback_round_trip "Physics" (Some 7) Accounts.no_accounts).
  - by apply not_in_string_dec.
  - discriminate.
Defined.

Lemma studyCommand_sets_key_witness :
  Accounts.getUserStudyKey 7
    (Handlers.studyCommand (Some 7) (Some "/study Linear Algebra")
       Accounts.no_accounts).1 = Some "Linear Algebra".
Proof.
  apply (studyCommand_sets_key "/study" "Linear Algebra" (Some 7) Accounts.no_accounts).
  - by apply not_in_string_dec.
  - discriminate.
Defined.

(** ** Selection, deletion and insertion *)

Section StoreFacts.
Implicit Types (st : Store) (k : string) (u : Z).

Lemma key_rows_nil_unused k u st :
  filter (λ q, study_key q = k) (questions st) = [] →
  unused_rows k u st = [] ∧ used_rows k u st = [].
Proof.
  intros Hnone.
  assert (∀ q, q ∈ questions st → study_key q ≠ k) as Hno.
  { intros q Hq Hk. assert (q ∈ filter (λ q, study_key q = k) (questions st))
      as Hin by (by apply list_elem_of_filter).
    rewrite Hnone in Hin. by apply elem_of_nil in Hin. }
  split.
  - destruct (unused_rows k u st) as [|q rest] eqn:E; [done|].
    assert (q ∈ unused_rows k u st) as Hq by (rewrite E; left).
    apply elem_of_unused_rows in Hq as (Hq & Hk & _). by destruct (Hno q Hq).
  - destruct (used_rows k u st) as [|[q t] rest] eqn:E; [done|].
    assert ((q, t) ∈ used_rows k u st) as Hq by (rewrite E; left).
    apply elem_of_used_rows in Hq as (Hq & Hk & _). by destruct (Hno q Hq).
Qed.

Lemma select_question_Some rnd k u st q0 :
  q0 ∈ questions st → study_key q0 = k →
  ∃ r, select_question rnd k u st = Some r ∧ r ∈ questions st ∧ study_key r = k ∧
       (head (merge_sort by_weight_random
                (imap (λ i q, (q, rnd i)) (unused_rows k u st))) = None →
        is_Some (head (merge_sort by_last_used (used_rows k u st)))).
Proof.
  intros Hq0 Hk0.
  destruct (decide (unused_rows k u st = [])) as [Hnil|Hne].
  - assert (∀ q, q ∈ questions st → study_key q = k →
                 is_Some (user_progress st !! (u, id q))) as Hall.
    { intros q Hq Hk. destruct (user_progress st !! (u, id q)) eqn:E; [eauto|].
      assert (q ∈ unused_rows k u st) as Hin by (by apply elem_of_unused_rows).
      rewrite Hnil in Hin. by apply elem_of_nil in Hin. }
    destruct (select_used k u rnd st q0 Hq0 Hk0 Hall) as (r & t & Hsel & Hr & Hrk & _).
    exists r. split_and!; try done. intros _.
    destruct (head (merge_sort by_last_used _)) eqn:E; [eauto|].
    apply first_row_none in E; [|apply _..].
    destruct (Hall q0 Hq0 Hk0) as [t0 Ht0].
    assert ((q0, t0) ∈ used_rows k u st) as Hin by (by apply elem_of_used_rows).
    rewrite E in Hin. by apply elem_of_nil in Hin.
  - destruct (select_unused k u st rnd Hne) as (r & i & Hsel & Hi & _).
    assert (r ∈ unused_rows k u st) as Hr by (apply list_elem_of_lookup; eauto).
    apply elem_of_unused_rows in Hr as (Hr & Hrk & _).
    exists r. split_and!; try done. intros Hhead.
    apply first_row_none in Hhead; [|apply _..].
    apply (f_equal length) in Hhead. rewrite length_imap in Hhead.
    by destruct (unused_rows k u st).
Qed.

Lemma getRandomQuestion_stored rnd now k u st r :
  (getRandomQuestion rnd now k u st).1 = Some r →
  r ∈ questions st ∧ study_key r = k.
Proof.
  rewrite getRandomQuestion_result. intros Hsel.
  destruct (filter (λ q, study_key q = k) (questions st)) as [|q0 rest] eqn:Hrows.
  - destruct (key_rows_nil_unused k u st Hrows) as [Hun Hus].
    unfold select_question in Hsel. by rewrite Hun, Hus, Hrows in Hsel.
  - assert (q0 ∈ filter (λ q, study_key q = k) (questions st)) as Hq0
      by (rewrite Hrows; left).
    apply list_elem_of_filter in Hq0 as [Hk0 Hq0].
    destruct (select_question_Some rnd k u st q0 Hq0 Hk0) as (r' & Hsel' & Hr & Hrk & _).
    by simplify_eq.
Qed.

(** X9. [getRandomQuestion] returns no question exactly when the study key
    has none, and then it leaves the store as it is; a question it returns
    is a stored question of that study key; and it never changes the
    questions, their counters or the votes. *)
Theorem getRandomQuestion_none_iff rnd now k u st :
  ((getRandomQuestion rnd now k u st).1 = None ↔
     ∀ q, q ∈ questions st → study_key q ≠ k) ∧
  ((getRandomQuestion rnd now k u st).1 = None →
     (getRandomQuestion rnd now k u st).2 = st) ∧
  (∀ r, (getRandomQuestion rnd now k u st).1 = Some r →
        r ∈ questions st ∧ study_key r = k) ∧
  questions (getRandomQuestion rnd now k u st).2 = questions st ∧
  votes (getRandomQuestion rnd now k u st).2 = votes st.
Proof.
  rewrite getRandomQuestion_result.
  destruct (filter (λ q, study_key q = k) (questions st)) as [|q0 rest] eqn:Hrows.
  - destruct (key_rows_nil_unused k u st Hrows) as [Hun Hus].
    assert (select_question rnd k u st = None) as Hsel.
    { unfold select_question. by rewrite Hun, Hus, Hrows. }
    rewrite Hsel. split_and!; try done.
    + split; [|done]. intros _ q Hq Hk.
      assert (q ∈ filter (λ q, study_key q = k) (questions st)) as Hin
        by (by apply list_elem_of_filter).
      rewrite Hrows in Hin. by apply elem_of_nil in Hin.
    + intros _. unfold getRandomQuestion. by rewrite Hsel.
    + unfold getRandomQuestion. by rewrite Hsel.
    + unfold getRandomQuestion. by rewrite Hsel.
  - assert (q0 ∈ filter (λ q, study_key q = k) (questions st)) as Hq0
      by (rewrite Hrows; left).
    apply list_elem_of_filter in Hq0 as [Hk0 Hq0].
    destruct (select_question_Some rnd k u st q0 Hq0 Hk0) as (r & Hsel & Hr & Hrk & _).
    rewrite Hsel. split_and!; try done.
    + split; [done|]. intros Hno. by destruct (Hno q0 Hq0).
    + by intros r' [= <-].
    + unfold getRandomQuestion. by rewrite Hsel.
    + unfold getRandomQuestion. by rewrite Hsel.
Qed.

(** X10. The third query of [getRandomQuestion], the fallback to any
    question of the study key, never finds a row: when the first two queries
    return none there is no question under the key. *)
Theorem fallback_query_unreachable rnd k u st :
  head (merge_sort by_weight_random
          (imap (λ i q, (q, rnd i)) (unused_rows k u st))) = None →
  head (merge_sort by_last_used (used_rows k u st)) = None →
  head (filter (λ q, study_key q = k) (questions st)) = None.
Proof.
  intros H1 H2.
  destruct (filter (λ q, study_key q = k) (questions st)) as [|q0 rest] eqn:Hrows;
    [done|].
  assert (q0 ∈ filter (λ q, study_key q = k) (questions st)) as Hq0
    by (rewrite Hrows; left).
  apply list_elem_of_filter in Hq0 as [Hk0 Hq0].
  destruct (select_question_Some rnd k u st q0 Hq0 Hk0) as (r & _ & _ & _ & Hsecond).
  destruct (Hsecond H1) as [x Hx]. congruence.
Qed.
End StoreFacts.

Lemma fallback_query_unreachable_witness :
  head (filter (λ q, study_key q = "Chemistry") (questions seen_store)) = None.
Proof.
  apply (fallback_query_unreachable (λ _, 0) "Chemistry" 7 seen_store);
    reflexivity.
Defined.

Section DeleteAndSave.
Implicit Types (st : Store) (qid : Z).

Lemma find_filter_other_id qid qid' (qs : list Question) :
  qid' ≠ qid →
  List.find (has_id qid') (filter (λ q, id q ≠ qid) qs) = List.find (has_id qid') qs.
Proof.
  intros Hne. induction qs as [|q qs IH]; [done|].
  rewrite filter_cons. destruct (decide (id q ≠ qid)) as [Hq|Hq]; cbn.
  - by rewrite IH.
  - apply dec_stable in Hq.
    rewrite (proj2 (has_id_false qid' q)) by congruence. apply IH.
Qed.

Lemma find_filter_same_id qid (qs : list Question) :
  List.find (has_id qid) (filter (λ q, id q ≠ qid) qs) = None.
Proof.
  induction qs as [|q qs IH]; [done|].
  rewrite filter_cons. destruct (decide (id q ≠ qid)) as [Hq|Hq]; [|done].
  cbn. by rewrite (proj2 (has_id_false qid q)).
Qed.

(** X11. [deleteQuestion] removes the question, every vote on it and every
    progress row for it; other questions, and the votes and progress rows
    of other questions, stay as they are; and no later selection returns a
    question with the deleted id. *)
Theorem deleteQuestion_removes qid st :
  getQuestionById qid (deleteQuestion qid st) = None ∧
  (∀ u, votes (deleteQuestion qid st) !! (u, qid) = None) ∧
  (∀ u, user_progress (deleteQuestion qid st) !! (u, qid) = None) ∧
  (∀ q', q' ≠ qid →
         getQuestionById q' (deleteQuestion qid st) = getQuestionById q' st) ∧
  (∀ u q', q' ≠ qid →
           votes (deleteQuestion qid st) !! (u, q') = votes st !! (u, q') ∧
           user_progress (deleteQuestion qid st) !! (u, q')
             = user_progress st !! (u, q')) ∧
  (∀ rnd now k u r,
     (getRandomQuestion rnd now k u (deleteQuestion qid st)).1 = Some r →
     id r ≠ qid).
Proof.
  split_and!.
  - apply find_filter_same_id.
  - intros u. cbn. apply map_lookup_filter_None. right. intros v _ Hne. by apply Hne.
  - intros u. cbn. apply map_lookup_filter_None. right. intros v _ Hne. by apply Hne.
  - intros q' Hne. by apply find_filter_other_id.
  - intros u q' Hne. cbn. split.
    + destruct (votes st !! (u, q')) as [v|] eqn:E.
      * by apply map_lookup_filter_Some.
      * apply map_lookup_filter_None. by left.
    + destruct (user_progress st !! (u, q')) as [v|] eqn:E.
      * by apply map_lookup_filter_Some.
      * apply map_lookup_filter_None. by left.
  - intros rnd now k u r Hr.
    apply getRandomQuestion_stored in Hr as [Hr _].
    cbn in Hr. by apply list_elem_of_filter in Hr as [Hne _].
Qed.

(** X12. In a store whose question ids are distinct and not above the
    AUTOINCREMENT counter, [saveQuestion] returns an id no stored question
    has; looking that id up gives the saved fields with both counters 0;
    every other lookup, the votes and the progress are as before; ids stay
    distinct and bounded; and the id of a deleted question is not handed
    out again. *)
Theorem saveQuestion_fresh now k text opts ci st :
  NoDup (id <$> questions st) →
  (∀ q, q ∈ questions st → id q ≤ seq st) →
  let new_id := (saveQuestion now k text opts ci st).1 in
  let st' := (saveQuestion now k text opts ci st).2 in
  (new_id ∉ (id <$> questions st)) ∧
  getQuestionById new_id st' = Some (mkQuestion new_id k text opts ci now 0 0) ∧
  (∀ q', q' ≠ new_id → getQuestionById q' st' = getQuestionById q' st) ∧
  votes st' = votes st ∧ user_progress st' = user_progress st ∧
  NoDup (id <$> questions st') ∧
  (∀ q, q ∈ questions st' → id q ≤ seq st') ∧
  (∀ q, q ∈ questions st →
        (saveQuestion now k text opts ci (deleteQuestion (id q) st)).1 ≠ id q).
Proof.
  intros Hnd Hbound new_id st'.
  assert (new_id ∉ (id <$> questions st)) as Hfresh.
  { intros (q & Hq & Hin)%list_elem_of_fmap. specialize (Hbound q Hin).
    unfold new_id in Hq. cbn in Hq. lia. }
  split_and!; try done.
  - pose proof (find_new_row (questions st)
                  (mkQuestion (seq st + 1) k text opts ci now 0 0)) as Hfind.
    cbn [id] in Hfind. unfold getQuestionById, st', new_id, saveQuestion.
    cbn [fst snd questions]. apply Hfind.
    intros q Hq. specialize (Hbound q Hq). lia.
  - intros q' Hne. unfold getQuestionById, st', saveQuestion. cbn [snd questions].
    unfold new_id in Hne. cbn in Hne. clear -Hne.
    generalize (questions st). intros qs.
    induction qs as [|q qs IH]; cbn.
    + by rewrite (proj2 (has_id_false q' _)).
    + destruct (has_id q' q); [done|]. apply IH.
  - unfold st', saveQuestion. cbn [snd questions].
    rewrite fmap_app. apply NoDup_app. split_and!; [done| |by apply NoDup_singleton].
    intros x Hx ->%list_elem_of_singleton. by apply Hfresh.
  - intros q. unfold st', saveQuestion. cbn [snd questions seq].
    intros [Hq| ->%list_elem_of_singleton]%elem_of_app; [|cbn; lia].
    specialize (Hbound q Hq). lia.
  - intros q Hq. cbn. specialize (Hbound q Hq). lia.
Qed.
End DeleteAndSave.

Lemma saveQuestion_fresh_witness :
  (saveQuestion 1700000001 "Physics" "D" ["d1"; "d2"] 0 fresh_store).1 = 4 ∧
  (saveQuestion 1700000001 "Physics" "D" ["d1"; "d2"] 0
     (deleteQuestion 3 fresh_store)).1 ≠ 3.
Proof.
  assert (NoDup (id <$> questions fresh_store)) as Hnd.
  { apply (bool_decide_unpack _). vm_compute. exact I. }
  assert (∀ q, q ∈ questions fresh_store → id q ≤ seq fresh_store) as Hbound.
  { intros q Hq. cbn in Hq.
    repeat (apply elem_of_cons in Hq as [->|Hq]; [cbn; lia|]).
    by apply elem_of_nil in Hq. }
  pose proof (saveQuestion_fresh 1700000001 "Physics" "D" ["d1"; "d2"] 0
                fresh_store Hnd Hbound) as H.
  cbv zeta in H. destruct H as (_ & _ & _ & _ & _ & _ & _ & Hreuse).
  split; [reflexivity|].
  apply (Hreuse question_C). right. right. left.
Defined.

(** ** The shuffle batch and the rest of a row *)

Section BatchFrame.
Import Bot Terms.

Lemma update_options_fixed qid opts ci (qs : list Question) :
  fixed_part <$> update_id qid (set_options opts ci) qs = fixed_part <$> qs.
Proof.
  unfold update_id. induction qs as [|q qs IH]; [done|].
  cbn. rewrite <- IH. f_equal. by destruct (has_id qid q).
Qed.

Lemma shuffleQuestion_frame c q w :
  let w' := (shuffleQuestion c q w).2 in
  fixed_part <$> questions (db w') = fixed_part <$> questions (db w) ∧
  votes (db w') = votes (db w) ∧
  user_progress (db w') = user_progress (db w) ∧
  seq (db w') = seq (db w).
Proof.
  cbv zeta. rewrite shuffleQuestion_db. case_decide; [done|].
  unfold updateQuestionOptions, set_questions. cbn.
  by rewrite update_options_fixed.
Qed.

Lemma shuffleLoop_frame chance l : ∀ w,
  let w' := (shuffleLoop chance l w).2 in
  fixed_part <$> questions (db w') = fixed_part <$> questions (db w) ∧
  votes (db w') = votes (db w) ∧
  user_progress (db w') = user_progress (db w) ∧
  seq (db w') = seq (db w).
Proof.
  induction l as [|q l IH]; intros w; [done|]. cbn.
  pose proof (shuffleQuestion_frame (chance (id q)) q w) as Hstep.
  destruct (shuffleQuestion _ q w) as [[] w1]; cbn in Hstep.
  - specialize (IH w1). cbv zeta in IH.
    destruct IH as (-> & -> & -> & ->). done.
  - done.
Qed.

(** X13. Whatever the draws and failures, the shuffle batch changes nothing
    of the questions but their options and correct index: ids, study keys,
    texts, creation times and both counters, in row order, are as before,
    and so are the votes, the progress rows and the id counter. *)
Theorem cleanRightAnswers_frame enabled chance w :
  let w' := cleanRightAnswers enabled chance w in
  fixed_part <$> questions (db w') = fixed_part <$> questions (db w) ∧
  length (questions (db w')) = length (questions (db w)) ∧
  votes (db w') = votes (db w) ∧
  user_progress (db w') = user_progress (db w) ∧
  seq (db w') = seq (db w).
Proof.
  cbv zeta. destruct enabled; [|done].
  rewrite cleanRightAnswers_db.
  destruct (shuffleLoop_frame chance (getAllQuestionsRaw (db w)) w)
    as (Hfixed & Hv & Hp & Hs).
  split_and!; try done.
  apply (f_equal length) in Hfixed. by rewrite !length_fmap in Hfixed.
Qed.
End BatchFrame.

(** ** Votes on missing questions and the guards of the vote handler *)

Section VoteEdges.
Import Bot.

Lemma update_id_absent qid f (qs : list Question) :
  List.find (has_id qid) qs = None → update_id qid f qs = qs.
Proof.
  unfold update_id. induction qs as [|q qs IH]; [done|]. cbn.
  destruct (has_id qid q); [done|]. intros Hnone. by rewrite IH.
Qed.

(** X14. A vote on an id that no stored question has is stored all the
    same, but it changes no question: the handler then reports 0 percent.
    Without a sender, with sender id 0 or with a question id that does not
    parse, the vote handler changes nothing and reports nothing. *)
Theorem vote_on_missing_question u qid voteType st :
  getQuestionById qid st = None → u ≠ 0 →
  let r := onVote (Some u) (Some qid) voteType st in
  questions r.1 = questions st ∧
  r.2 = Some 0 ∧
  (votes st !! (u, qid) = None →
     votes r.1 !! (u, qid) = Some (voteVal (String.eqb voteType "up"))) ∧
  onVote None (Some qid) voteType st = (st, None) ∧
  onVote (Some 0) (Some qid) voteType st = (st, None) ∧
  onVote (Some u) None voteType st = (st, None).
Proof.
  intros Hnone Hu r. subst r. unfold onVote.
  rewrite (proj2 (Z.eqb_neq u 0)) by done. cbn [fst snd].
  assert (questions (addVote u qid (String.eqb voteType "up") st) = questions st)
    as Hqs.
  { unfold addVote, getQuestionById in *.
    destruct (votes st !! (u, qid)); [destruct (decide _); [done|]|];
      cbn; by apply update_id_absent. }
  split_and!; try done.
  - rewrite stats_find. unfold getQuestionById in *. by rewrite Hqs, Hnone.
  - intros Hv. unfold addVote. rewrite Hv. cbn. apply lookup_insert_eq.
Qed.
End VoteEdges.

Lemma vote_on_missing_question_witness :
  (Bot.onVote (Some 7) (Some 99) "up" sample_store).2 = Some 0 ∧
  votes (Bot.onVote (Some 7) (Some 99) "up" sample_store).1 !! (7, 99) = Some 1.
Proof.
  pose proof (vote_on_missing_question 7 99 "up" sample_store eq_refl
                ltac:(lia)) as H.
  cbv zeta in H. destruct H as (_ & Hshown & Hvote & _).
  split; [exact Hshown|exact (Hvote eq_refl)].
Defined.

(** ** Code fences and the outcome of the pipeline *)

Section Fences.
Import Ai.
Import Stdlib.Strings.Ascii.
Variable trim : string → string.
Variable JSON_parse : string → option json.
Variable JSON_parse_questions : string → option (list GeneratedQuestion).

Lemma append_nil_r (s : string) : (s ++ "")%string = s.
Proof. induction s as [|a s IH]; [done|]. by rewrite append_cons, IH. Qed.

(** Text without a backtick passes through the removal of a pattern that
    starts with one. *)
Lemma remove_all_plain pat payload rest :
  "`"%char ∉ String.list_ascii_of_string payload →
  remove_all (String "`" pat) 0 (payload ++ rest)
    = (payload ++ remove_all (String "`" pat) 0 rest)%string.
Proof.
  induction payload as [|c s IH]; intros Hnot; [by rewrite !append_nil_l|].
  cbn [String.list_ascii_of_string] in Hnot.
  apply not_elem_of_cons in Hnot as [Hne Hnot].
  rewrite !append_cons. cbn [remove_all String.prefix].
  destruct (ascii_dec "`" c) as [Heq|_]; [congruence|]. by rewrite IH.
Qed.

Lemma remove_all_skip pat dropped rest :
  remove_all pat (String.length dropped) (dropped ++ rest) = remove_all pat 0 rest.
Proof.
  induction dropped as [|c s IH]; [by rewrite append_nil_l|].
  rewrite append_cons. cbn [String.length remove_all]. apply IH.
Qed.

Lemma remove_all_match c pat rest :
  remove_all (String c pat) 0 (String c pat ++ rest) = remove_all (String c pat) 0 rest.
Proof.
  pose proof (prefix_append (String c pat) rest) as Hprefix.
  rewrite append_cons in *. cbn [remove_all]. rewrite Hprefix.
  replace (String.length (String c pat) - 1)%nat with (String.length pat)
    by (cbn [String.length]; lia).
  apply remove_all_skip.
Qed.

(** X15. For a payload without backticks, [clean] unwraps a reply fenced as
    a json code block and leaves an unfenced reply alone: in both cases the
    parser is given the trimmed payload. *)
Theorem clean_unwraps_fence payload :
  "`"%char ∉ String.list_ascii_of_string payload →
  clean trim ("```json" ++ payload ++ "```") = trim payload ∧
  clean trim payload = trim payload.
Proof.
  intros Hplain. unfold clean. split; f_equal.
  - rewrite (remove_all_match "`" "``json" (payload ++ "```")).
    rewrite (remove_all_plain "``json" payload "```" Hplain).
    change (remove_all "```json" 0 "```") with "```".
    rewrite (remove_all_plain "``" payload "```" Hplain).
    change (remove_all "```" 0 "```") with "". apply append_nil_r.
  - assert (∀ pat, remove_all (String "`" pat) 0 payload = payload) as Hsame.
    { intros pat. pose proof (remove_all_plain pat payload "" Hplain) as H.
      cbn [remove_all] in H. by rewrite !append_nil_r in H. }
    by rewrite !Hsame.
Qed.

Lemma filterBadQuestions_sublist questions reply :
  filterBadQuestions trim JSON_parse questions reply `sublist_of` questions.
Proof.
  unfold filterBadQuestions.
  destruct (length questions =? 0)%nat; [apply sublist_nil_l|].
  destruct reply as [|[raw|]]; try done.
  destruct (String.eqb _ _); [done|].
  destruct (JSON_parse _) as [[]|]; try done.
  apply filter_index_sublist.
Qed.

(** X16. [generateQuestions] throws exactly when the API key is not set.
    Otherwise it returns either no question or, when the draft reply parses
    to a list of drafts, a sublist of those drafts in draft order, whatever
    the validation call yields: it never adds, changes or reorders a
    question. *)
Theorem generateQuestions_never_invents key_set draft validation :
  (generateQuestions trim JSON_parse JSON_parse_questions key_set draft validation
     = None ↔ key_set = false) ∧
  (∀ result,
     generateQuestions trim JSON_parse JSON_parse_questions key_set draft validation
       = Some result →
     result = [] ∨
     ∃ raw drafts,
       draft = Resolved (Some raw) ∧
       JSON_parse_questions (clean trim (trim raw)) = Some drafts ∧
       result `sublist_of` drafts).
Proof.
  unfold generateQuestions. destruct key_set; cbn [negb]; split; try done.
  intros result [= <-].
  destruct draft as [|[raw|]]; [by left| |by left].
  destruct (String.eqb _ _); [by left|].
  destruct (JSON_parse_questions _) as [drafts|] eqn:Hdrafts; [|by left].
  destruct (length drafts =? 0)%nat; [by left|].
  right. exists raw, drafts. split_and!; try done.
  apply filterBadQuestions_sublist.
Qed.
End Fences.

Lemma clean_unwraps_fence_witness :
  Ai.clean (λ s, s) "```json[0, 2]```" = "[0, 2]".
Proof.
  apply (clean_unwraps_fence (λ s, s) "[0, 2]").
  by apply not_in_string_dec.
Defined.

(** ** Escaping *)

Section Escaping.
Import Html Terms.
Import Stdlib.Strings.Ascii.

Lemma replace_char_app c r a b :
  replace_char c r (a ++ b) = (replace_char c r a ++ replace_char c r b)%string.
Proof.
  induction a as [|x a IH]; [by rewrite !append_nil_l|].
  rewrite append_cons. cbn [replace_char]. destruct (Ascii.eqb x c).
  - by rewrite IH, append_assoc.
  - by rewrite append_cons, IH.
Qed.

Lemma escapeHtml_app a b :
  escapeHtml (a ++ b) = (escapeHtml a ++ escapeHtml b)%string.
Proof. unfold escapeHtml. by rewrite !replace_char_app. Qed.

Lemma escapeHtml_char c : escapeHtml (String c "") = escaped c.
Proof.
  unfold escaped. repeat case_decide; subst; try reflexivity.
  unfold escapeHtml, dquote. cbn [replace_char].
  repeat (rewrite (proj2 (Ascii.eqb_neq c _)) by done; cbn [replace_char]).
  done.
Qed.

Lemma escapeHtml_cons c rest :
  escapeHtml (String c rest) = (escaped c ++ escapeHtml rest)%string.
Proof.
  change (String c rest) with (String c "" ++ rest)%string.
  by rewrite escapeHtml_app, escapeHtml_char.
Qed.

Lemma escapeHtml_escaped s : escapeHtml s = escaped_text s.
Proof.
  induction s as [|c s IH]; [done|]. by rewrite escapeHtml_cons, IH.
Qed.

Lemma list_ascii_app a b :
  String.list_ascii_of_string (a ++ b)
    = String.list_ascii_of_string a ++ String.list_ascii_of_string b.
Proof.
  induction a as [|x a IH]; [done|]. rewrite append_cons. cbn. by rewrite IH.
Qed.

Lemma escaped_safe c x :
  x ∈ String.list_ascii_of_string (escaped c) →
  x ≠ "<"%char ∧ x ≠ ">"%char ∧ x ≠ dquote ∧ x ≠ "'"%char.
Proof.
  unfold escaped, dquote. repeat case_decide; cbn;
    rewrite ?elem_of_cons, elem_of_nil; intros Hx;
    repeat (destruct Hx as [->|Hx]; [by repeat split|]); try done.
Qed.

Lemma escaped_text_inj s1 : ∀ s2, escaped_text s1 = escaped_text s2 → s1 = s2.
Proof.
  induction s1 as [|c1 s1 IH]; intros [|c2 s2] Heq; cbn [escaped_text] in Heq.
  - done.
  - unfold escaped in Heq. repeat case_decide;
      rewrite ?append_cons in Heq; discriminate.
  - unfold escaped in Heq. repeat case_decide;
      rewrite ?append_cons in Heq; discriminate.
  - unfold escaped in Heq.
    repeat case_decide; subst;
      repeat rewrite append_cons in Heq; rewrite ?append_nil_l in Heq;
      try discriminate;
      try (injection Heq as Heq; f_equal; by apply IH);
      try (injection Heq as Hc Heq; subst; done || (f_equal; by apply IH)).
Qed.

(** X17. The text [escapeHtml] returns contains none of the characters
    less-than, greater-than, double quote and apostrophe; escaping is done
    character by character, so it distributes over concatenation and leaves
    text without special characters unchanged; and different texts have
    different escapes. *)
Theorem escapeHtml_safe s :
  (∀ x, x ∈ String.list_ascii_of_string (escapeHtml s) →
        x ≠ "<"%char ∧ x ≠ ">"%char ∧ x ≠ dquote ∧ x ≠ "'"%char) ∧
  (∀ s', escapeHtml (s ++ s') = (escapeHtml s ++ escapeHtml s')%string) ∧
  (∀ s', escapeHtml s = escapeHtml s' → s = s') ∧
  ((∀ c, c ∈ String.list_ascii_of_string s → ¬ special c) → escapeHtml s = s).
Proof.
  split_and!.
  - rewrite escapeHtml_escaped. induction s as [|c s IH]; intros x.
    + by intros ?%elem_of_nil.
    + cbn [escaped_text]. rewrite list_ascii_app, elem_of_app.
      intros [Hx|Hx].
      * by eapply escaped_safe.
      * by apply IH.
  - intros s'. apply escapeHtml_app.
  - intros s'. rewrite !escapeHtml_escaped. apply escaped_text_inj.
  - rewrite escapeHtml_escaped. induction s as [|c s IH]; intros Hplain; [done|].
    cbn [escaped_text]. rewrite IH.
    + assert (¬ special c) as Hc by (apply Hplain; left).
      unfold special in Hc. unfold escaped.
      repeat case_decide; try tauto; done.
    + intros x Hx. apply Hplain. by right.
Qed.
End Escaping.

Example escapeHtml_sample :
  Html.escapeHtml "a<b & 'c'" = "a&lt;b &amp; &#039;c&#039;".
Proof. reflexivity. Qed.

(** ** Study keys in order *)

Section StudyKeys.
Import Accounts Catalog Handlers.

Lemma string_compare_trans a : ∀ b c,
  String.compare a b ≠ Gt → String.compare b c ≠ Gt → String.compare a c ≠ Gt.
Proof.
  induction a as [|x a IH]; intros [|y b] [|z c]; cbn; try done.
  unfold Ascii.compare.
  destruct (N.compare_spec (Ascii.N_of_ascii x) (Ascii.N_of_ascii y)),
           (N.compare_spec (Ascii.N_of_ascii y) (Ascii.N_of_ascii z)),
           (N.compare_spec (Ascii.N_of_ascii x) (Ascii.N_of_ascii z));
    try done; try lia; apply IH.
Qed.

Lemma string_le_alt s1 s2 : string_le s1 s2 ↔ String.compare s1 s2 ≠ Gt.
Proof. unfold string_le, String.leb. by destruct (String.compare s1 s2). Qed.

#[global] Instance string_le_total : Total string_le.
Proof. intros a b. apply String.leb_total. Qed.

#[global] Instance string_le_trans : Transitive string_le.
Proof. intros a b c. rewrite !string_le_alt. apply string_compare_trans. Qed.

Lemma getQuestionCount_pos k st :
  0 < getQuestionCount k st ↔ ∃ q, q ∈ questions st ∧ study_key q = k.
Proof.
  unfold getQuestionCount.
  destruct (filter (λ q, study_key q = k) (questions st)) as [|q0 rest] eqn:E.
  - split; [cbn; lia|]. intros (q & Hq & Hk).
    assert (q ∈ filter (λ q, study_key q = k) (questions st)) as Hin
      by (by apply list_elem_of_filter).
    rewrite E in Hin. by apply elem_of_nil in Hin.
  - split; [|cbn; lia]. intros _.
    assert (q0 ∈ filter (λ q, study_key q = k) (questions st)) as Hin
      by (rewrite E; left).
    apply list_elem_of_filter in Hin as [Hk Hq]. eauto.
Qed.

Lemma elem_of_getAllStudyKeys k st :
  k ∈ getAllStudyKeys st ↔ ∃ q, q ∈ questions st ∧ study_key q = k.
Proof.
  unfold getAllStudyKeys.
  rewrite merge_sort_Permutation, elem_of_remove_dups, list_elem_of_fmap.
  split; [intros (q & -> & Hq)|intros (q & Hq & <-)]; eauto.
Qed.

(** X18. [getAllStudyKeys] lists the study keys in ascending bytewise
    order and without repetition, and a key is listed exactly when some
    stored question has it, that is, when its question count is positive. *)
Theorem getAllStudyKeys_sorted st :
  StronglySorted string_le (getAllStudyKeys st) ∧
  NoDup (getAllStudyKeys st) ∧
  (∀ k, k ∈ getAllStudyKeys st ↔ ∃ q, q ∈ questions st ∧ study_key q = k) ∧
  (∀ k, k ∈ getAllStudyKeys st ↔ 0 < getQuestionCount k st).
Proof.
  split_and!.
  - apply StronglySorted_merge_sort; apply _.
  - unfold getAllStudyKeys. rewrite merge_sort_Permutation. apply NoDup_remove_dups.
  - intros k. apply elem_of_getAllStudyKeys.
  - intros k. by rewrite elem_of_getAllStudyKeys, getQuestionCount_pos.
Qed.

End StudyKeys.


(** ** Pages of questions *)

Section Pages.
Import Catalog.
Implicit Types (k : string) (st : Store) (p n : Z).

Lemma by_rating_id_iff x y :
  by_rating_id x y ↔
    (weight x < weight y)%Q ∨ ((weight x == weight y)%Q ∧ id y ≤ id x).
Proof.
  unfold by_rating_id. destruct (weight x ?= weight y)%Q eqn:E.
  - apply Qeq_alt in E. split; [by right|].
    intros [Hlt|[_ ?]]; [|done]. rewrite E in Hlt. by apply Qlt_irrefl in Hlt.
  - apply Qlt_alt in E. split; [by left|done].
  - apply Qgt_alt in E. split; [done|].
    intros [Hlt|[Heq _]].
    + apply (Qlt_irrefl (weight x)). by eapply Qlt_trans.
    + rewrite Heq in E. by apply Qlt_irrefl in E.
Qed.

#[global] Instance by_rating_id_total : Total by_rating_id.
Proof.
  intros x y. rewrite !by_rating_id_iff.
  destruct (Q_dec (weight x) (weight y)) as [[Hlt|Hgt]|Heq];
    [by left; left|by right; left|].
  destruct (Z.le_ge_cases (id x) (id y)).
  - right. right. split; [by symmetry|done].
  - left. right. split; [done|lia].
Qed.

#[global] Instance by_rating_id_trans : Transitive by_rating_id.
Proof.
  intros x y z. rewrite !by_rating_id_iff.
  intros [H1|[H1 H1']] [H2|[H2 H2']].
  - left. by eapply Qlt_trans.
  - left. by rewrite <- H2.
  - left. by rewrite H1.
  - right. split; [by rewrite H1|lia].
Qed.

Lemma ordered_rows_length k st :
  Z.of_nat (length (ordered_rows k st)) = getQuestionCount k st.
Proof.
  unfold ordered_rows, getQuestionCount. by rewrite merge_sort_Permutation.
Qed.

Lemma page_rows k p n st :
  0 ≤ n → 1 ≤ p →
  page_questions (getQuestions k p n st)
    = take (Z.to_nat n)
           (drop (Z.to_nat (p - 1) * Z.to_nat n) (ordered_rows k st)).
Proof.
  intros Hn Hp. unfold getQuestions, sql_limit, sql_offset. cbn [page_questions].
  rewrite (proj2 (Z.ltb_ge n 0)) by done.
  by rewrite Z2Nat.inj_mul by lia.
Qed.

Lemma ceiling_div t n :
  0 < n → Qceiling (inject_Z t / inject_Z n) = (t + n - 1) / n.
Proof.
  intros Hn. unfold Qceiling.
  assert (- (inject_Z t / inject_Z n) == (- t) # Z.to_pos n)%Q as ->.
  { rewrite (Qmake_Qdiv (- t) (Z.to_pos n)). rewrite Z2Pos.id by done.
    rewrite inject_Z_opp.
    assert (¬ inject_Z n == 0)%Q.
    { change 0%Q with (inject_Z 0). rewrite inject_Z_injective. lia. }
    by field. }
  cbn [Qfloor]. rewrite Z2Pos.id by done.
  pose proof (Z.div_mod (t + n - 1) n ltac:(lia)) as Hdm.
  pose proof (Z.mod_pos_bound (t + n - 1) n Hn) as Hmod.
  assert (- t / n = - ((t + n - 1) / n)); [|lia].
  symmetry. apply (Z.div_unique_pos _ _ _ (n - 1 - (t + n - 1) mod n)); lia.
Qed.

Lemma page_empty_iff k p n st :
  0 < n → 1 ≤ p →
  page_questions (getQuestions k p n st) = [] ↔
    getQuestionCount k st ≤ (p - 1) * n.
Proof.
  intros Hn Hp. rewrite page_rows by lia. rewrite <- ordered_rows_length.
  rewrite <- length_zero_iff_nil, length_take, length_drop. nia.
Qed.

Lemma getQuestions_totals k p n st :
  0 < n →
  total (getQuestions k p n st) = getQuestionCount k st ∧
  totalPages (getQuestions k p n st)
    = Some ((getQuestionCount k st + n - 1) / n).
Proof.
  intros Hn. unfold getQuestions, getQuestionCount. cbn [total totalPages].
  split; [done|]. rewrite (proj2 (Z.eqb_neq n 0)) by lia.
  by rewrite ceiling_div.
Qed.

Lemma page_nonempty_iff k p n st :
  0 < n → 1 ≤ p →
  page_questions (getQuestions k p n st) ≠ [] ↔
    p ≤ (getQuestionCount k st + n - 1) / n.
Proof.
  intros Hn Hp. rewrite page_empty_iff by done.
  pose proof (Z.div_mod (getQuestionCount k st + n - 1) n ltac:(lia)) as Hdm.
  pose proof (Z.mod_pos_bound (getQuestionCount k st + n - 1) n Hn) as Hmod.
  nia.
Qed.

(** X20. For a positive page size, [getQuestions] cuts the ordered rows of
    the study key into consecutive pages: the row at position [i] is found
    on page [i / size + 1] at position [i mod size]; a page holds at most
    [size] rows and is empty exactly when the pages before it hold all the
    rows; [total] is the question count of the key and [totalPages] is the
    number of non-empty pages. *)
Theorem getQuestions_pages k n st :
  0 < n →
  let rows := ordered_rows k st in
  let size := Z.to_nat n in
  (∀ i, (i < length rows)%nat →
        page_questions (getQuestions k (Z.of_nat (i / size) + 1) n st)
          !! (i mod size)%nat = rows !! i) ∧
  (∀ p, 1 ≤ p →
        Z.of_nat (length (page_questions (getQuestions k p n st))) ≤ n ∧
        (page_questions (getQuestions k p n st) = [] ↔
           getQuestionCount k st ≤ (p - 1) * n)) ∧
  (∀ p, total (getQuestions k p n st) = getQuestionCount k st ∧
        totalPages (getQuestions k p n st)
          = Some ((getQuestionCount k st + n - 1) / n)) ∧
  (∀ p, 1 ≤ p →
        (page_questions (getQuestions k p n st) ≠ [] ↔
           p ≤ (getQuestionCount k st + n - 1) / n)).
Proof.
  intros Hn rows size.
  assert (0 < size)%nat as Hsize by (unfold size; lia).
  split_and!.
  - intros i Hi. rewrite page_rows by lia. fold rows size.
    rewrite Z.add_simpl_r, Nat2Z.id.
    rewrite lookup_take_lt by (by apply Nat.mod_upper_bound; lia).
    rewrite lookup_drop. f_equal.
    pose proof (Nat.div_mod i size ltac:(lia)). lia.
  - intros p Hp. split; [|by apply page_empty_iff].
    rewrite page_rows by lia. rewrite length_take. unfold size. lia.
  - intros p. by apply getQuestions_totals.
  - intros p Hp. by apply page_nonempty_iff.
Qed.

End Pages.

Lemma getQuestions_pages_witness :
  Catalog.page_questions (Catalog.getQuestions "Physics" 2 2 fresh_store)
    !! 0%nat = Catalog.ordered_rows "Physics" fresh_store !! 2%nat ∧
  Catalog.totalPages (Catalog.getQuestions "Physics" 2 2 fresh_store) = Some 2.
Proof.
  pose proof (getQuestions_pages "Physics" 2 fresh_store ltac:(lia)) as H.
  cbv zeta in H. destruct H as (Hpos & _ & Htotal & _).
  split.
  - apply (Hpos 2%nat). vm_compute. lia.
  - exact (proj2 (Htotal 2)).
Defined.


Example getQuestions_fresh_store :
  id <$> Catalog.page_questions (Catalog.getQuestions "Physics" 1 5 fresh_store)
    = [3; 1; 2].
Proof. by vm_compute. Qed.

Section Listing.
Import Catalog Handlers.
Implicit Types (k : string) (st : Store).

Lemma listFrom_no_questions k st :
  getQuestionCount k st = 0 →
  ∀ fuel page, page - 1 ≤ Z.of_nat fuel → listFrom fuel k page st = Some NoQuestions.
Proof.
  intros Hcount.
  assert (∀ page, page_questions (getQuestions k page 5 st) = []) as Hrows.
  { intros page. unfold getQuestions, sql_limit, sql_offset. cbn.
    rewrite <- ordered_rows_length in Hcount.
    destruct (ordered_rows k st); [|cbn in Hcount; lia].
    by rewrite drop_nil. }
  induction fuel as [|fuel IH]; intros page Hfuel; cbn [listFrom]; rewrite Hrows.
  - by rewrite (proj2 (Z.ltb_ge 1 page)) by lia.
  - destruct (1 <? page) eqn:E; [|done]. apply IH. lia.
Qed.

Lemma listFrom_shown k st :
  0 < getQuestionCount k st →
  let last := (getQuestionCount k st + 4) / 5 in
  ∀ fuel page, 1 ≤ page → page - last ≤ Z.of_nat fuel →
    let shown := Z.min page last in
    listFrom fuel k page st
      = Some (PageShown shown (page_questions (getQuestions k shown 5 st))
                        (Some last) (1 <? shown) (shown <? last)) ∧
    page_questions (getQuestions k shown 5 st) ≠ [].
Proof.
  intros Hcount last.
  pose proof (λ p, getQuestions_totals k p 5 st ltac:(lia)) as Htotal.
  pose proof (λ p, page_nonempty_iff k p 5 st ltac:(lia)) as Hfull.
  replace (getQuestionCount k st + 5 - 1) with (getQuestionCount k st + 4)
    in Htotal, Hfull by lia.
  fold last in Htotal, Hfull.
  assert (1 ≤ last).
  { unfold last.
    pose proof (Z.div_mod (getQuestionCount k st + 4) 5 ltac:(lia)).
    pose proof (Z.mod_pos_bound (getQuestionCount k st + 4) 5 ltac:(lia)). lia. }
  induction fuel as [|fuel IH]; intros page Hpage Hfuel shown.
  - assert (shown = page) as -> by (unfold shown; lia).
    assert (page_questions (getQuestions k page 5 st) ≠ []) as Hne
      by (apply Hfull; lia).
    split; [|done]. cbn [listFrom].
    destruct (page_questions (getQuestions k page 5 st)) eqn:E; [done|].
    by rewrite (proj2 (Htotal page)).
  - destruct (decide (page ≤ last)) as [Hle|Hgt].
    + assert (shown = page) as -> by (unfold shown; lia).
      assert (page_questions (getQuestions k page 5 st) ≠ []) as Hne
        by (apply Hfull; lia).
      split; [|done]. cbn [listFrom].
      destruct (page_questions (getQuestions k page 5 st)) eqn:E; [done|].
      by rewrite (proj2 (Htotal page)).
    + assert (page_questions (getQuestions k page 5 st) = []) as Hnil.
      { destruct (page_questions (getQuestions k page 5 st)) eqn:E; [done|].
        assert (page ≤ last); [|lia]. apply Hfull; [lia|]. by rewrite E. }
      assert (shown = Z.min (page - 1) last) as Hshown by (unfold shown; lia).
      rewrite Hshown. cbn [listFrom]. rewrite Hnil.
      rewrite (proj2 (Z.ltb_lt 1 page)) by lia.
      apply IH; lia.
Qed.

(** X22. [sendQuestionsList] always produces a view.  For a study key
    without questions it is the empty notice, whatever the page.  Otherwise,
    asked for page [p ≥ 1], it shows the page itself when it exists and the
    last page when [p] lies beyond it (as after deleting the only row of the
    last page); the page shown is never empty, its number lies between 1
    and the page count, and the back and forward buttons are offered
    exactly when such pages exist. *)
Theorem sendQuestionsList_shows k page st :
  (getQuestionCount k st = 0 → sendQuestionsList k page st = Some NoQuestions) ∧
  (0 < getQuestionCount k st → 1 ≤ page →
   let last := (getQuestionCount k st + 4) / 5 in
   let shown := Z.min page last in
   sendQuestionsList k page st
     = Some (PageShown shown (page_questions (getQuestions k shown 5 st))
                       (Some last) (1 <? shown) (shown <? last)) ∧
   page_questions (getQuestions k shown 5 st) ≠ [] ∧
   1 ≤ shown ≤ last).
Proof.
  unfold sendQuestionsList. split.
  - intros Hcount. apply listFrom_no_questions; [done|lia].
  - intros Hcount Hpage.
    pose proof (Z.div_mod (getQuestionCount k st + 4) 5 ltac:(lia)) as Hdm.
    pose proof (Z.mod_pos_bound (getQuestionCount k st + 4) 5 ltac:(lia)) as Hmod.
    pose proof (listFrom_shown k st Hcount (Z.to_nat page) page Hpage) as Hshown.
    cbv zeta in Hshown. destruct Hshown as [Hview Hne]; [lia|].
    split_and!; try done; lia.
Qed.
End Listing.

Example sendQuestionsList_falls_back :
  Handlers.sendQuestionsList "Physics" 2 fresh_store
    = Some (Handlers.PageShown 1
              (Catalog.page_questions (Catalog.getQuestions "Physics" 1 5 fresh_store))
              (Some 1) false false).
Proof. by vm_compute. Qed.

(** ** Renaming a study key *)

Section Renaming.
Import Accounts Catalog Terms.

Lemma renamed_count_new oldKey newKey (qs : list Question) :
  oldKey ≠ newKey →
  length (filter (λ q, study_key q = newKey)
            (map (λ q, if in_key oldKey q then set_study_key newKey q else q) qs))
    = (length (filter (λ q, study_key q = newKey) qs)
       + length (filter (λ q, study_key q = oldKey) qs))%nat.
Proof.
  intros Hne. induction qs as [|q qs IH]; [done|].
  cbn [map]. destruct (in_key oldKey q) eqn:Hold;
    [apply bool_decide_eq_true in Hold|apply bool_decide_eq_false in Hold];
    rewrite !filter_cons; repeat case_decide;
    cbn [length study_key set_study_key] in *;
    rewrite ?IH; try lia; try congruence.
Qed.

Lemma renamed_count_other oldKey newKey k (qs : list Question) :
  k ≠ newKey →
  length (filter (λ q, study_key q = k)
            (map (λ q, if in_key oldKey q then set_study_key newKey q else q) qs))
    = if decide (k = oldKey) then 0%nat
      else length (filter (λ q, study_key q = k) qs).
Proof.
  intros Hne. induction qs as [|q qs IH]; [by destruct (decide _)|].
  cbn [map]. destruct (in_key oldKey q) eqn:Hold;
    [apply bool_decide_eq_true in Hold|apply bool_decide_eq_false in Hold];
    rewrite !filter_cons; repeat case_decide;
    cbn [length study_key set_study_key] in *;
    rewrite ?IH; try lia; try congruence.
Qed.

(** X23. [renameStudyKey] moves every question of the old key to the new
    one: the new key's question count grows by the old key's, the old key's
    becomes 0 and the other keys keep theirs; nothing else of a question
    changes, and votes, progress rows and the id counter are untouched.
    Users whose current key was the old one now have the new one; other
    users, all trust flags and the usernames stay as they were. *)
Theorem renameStudyKey_moves oldKey newKey st t :
  oldKey ≠ newKey →
  let d := renameStudyKey oldKey newKey (st, t) in
  getQuestionCount newKey d.1
    = getQuestionCount newKey st + getQuestionCount oldKey st ∧
  getQuestionCount oldKey d.1 = 0 ∧
  (∀ k, k ≠ oldKey → k ≠ newKey → getQuestionCount k d.1 = getQuestionCount k st) ∧
  keyless_part <$> questions d.1 = keyless_part <$> questions st ∧
  votes d.1 = votes st ∧ user_progress d.1 = user_progress st ∧ seq d.1 = seq st ∧
  (∀ u, getUserStudyKey u d.2
        = if decide (getUserStudyKey u t = Some oldKey) then Some newKey
          else getUserStudyKey u t) ∧
  (∀ u, isTrusted u d.2 = isTrusted u t) ∧
  usernames d.2 = usernames t.
Proof.
  intros Hne d. subst d. unfold renameStudyKey, set_questions, getQuestionCount.
  cbn [fst snd questions votes user_progress seq users usernames].
  split_and!; try done.
  - rewrite renamed_count_new by done. lia.
  - rewrite renamed_count_other by done. by rewrite decide_True.
  - intros k Hk1 Hk2. rewrite renamed_count_other by done.
    by rewrite decide_False.
  - induction (questions st) as [|q qs IH]; [done|].
    cbn. rewrite <- IH. f_equal. by destruct (in_key oldKey q).
  - intros u. unfold getUserStudyKey. cbn [users]. rewrite lookup_fmap.
    destruct (users t !! u) as [row|]; cbn; by destruct (decide _).
  - intros u. unfold isTrusted. cbn [users]. rewrite lookup_fmap.
    destruct (users t !! u) as [row|]; cbn; [|done].
    by destruct (decide _).
Qed.
End Renaming.

Lemma renameStudyKey_moves_witness :
  Catalog.getQuestionCount "Mechanics"
    (Accounts.renameStudyKey "Physics" "Mechanics"
       (fresh_store, Accounts.no_accounts)).1 = 3.
Proof.
  pose proof (renameStudyKey_moves "Physics" "Mechanics" fresh_store
                Accounts.no_accounts ltac:(discriminate)) as H.
  cbv zeta in H. destruct H as (Hnew & _). rewrite Hnew. reflexivity.
Defined.

(** ** Who may add and delete questions *)

Section Authorisation.
Import Accounts Catalog Handlers.
Import Stdlib.Strings.Ascii.
Variable parseInt : string → option Z.
Variable adminId : Z.

Lemma count_by_keys k st :
  getQuestionCount k st
    = Z.of_nat (length (filter (λ x, x = k) (study_key <$> questions st))).
Proof.
  unfold getQuestionCount. f_equal.
  induction (questions st) as [|q qs IH]; [done|].
  cbn [fmap list_fmap]. rewrite !filter_cons.
  destruct (decide (study_key q = k)); cbn [length]; by rewrite IH.
Qed.

Lemma saveGenerated_keys now k rt gs : ∀ w,
  study_key <$> questions (Bot.db (Bot.saveGenerated now k rt gs w))
    = (study_key <$> questions (Bot.db w)) ++ replicate (length gs) k ∧
  votes (Bot.db (Bot.saveGenerated now k rt gs w)) = votes (Bot.db w) ∧
  user_progress (Bot.db (Bot.saveGenerated now k rt gs w))
    = user_progress (Bot.db w).
Proof.
  induction gs as [|g gs IH]; intros w; [by rewrite app_nil_r|].
  destruct (saveGenerated_cons now k rt g gs w) as (w1 & -> & Hdb).
  destruct (IH w1) as (-> & -> & ->). rewrite Hdb. cbn.
  by rewrite fmap_app, <- app_assoc.
Qed.

Lemma filter_replicate_same (k : string) n :
  filter (λ x, x = k) (replicate n k) = replicate n k.
Proof.
  induction n as [|n IH]; [done|]. cbn [replicate].
  by rewrite filter_cons_True, IH.
Qed.

Lemma filter_replicate_other (k k' : string) n :
  k' ≠ k → filter (λ x, x = k') (replicate n k) = [].
Proof.
  intros Hne. induction n as [|n IH]; [done|]. cbn [replicate].
  by rewrite filter_cons_False, IH by congruence.
Qed.

(** X24. A text message from a sender who is neither trusted nor the admin
    changes nothing.  From a trusted sender or the admin, with a current
    study key, every generated question is saved under that key: its
    question count grows by the number of generated questions, the counts
    of other keys, the votes and the progress rows stay as they are. *)
Theorem messageHandler_adds u text gs now rt t w k :
  u ≠ 0 → text ≠ "" → String.prefix "/" text = false →
  getUserStudyKey u t = Some k → k ≠ "" →
  let w' := messageHandler adminId (Some u) (Some text) (Some gs) now rt t w in
  (isTrusted u t = false → u ≠ adminId → w' = w) ∧
  (isTrusted u t = true ∨ u = adminId →
     getQuestionCount k (Bot.db w')
       = getQuestionCount k (Bot.db w) + Z.of_nat (length gs) ∧
     (∀ k', k' ≠ k →
            getQuestionCount k' (Bot.db w') = getQuestionCount k' (Bot.db w)) ∧
     votes (Bot.db w') = votes (Bot.db w) ∧
     user_progress (Bot.db w') = user_progress (Bot.db w)).
Proof.
  intros Hu Htext Hcmd Hkey Hk w'. subst w'. unfold messageHandler.
  rewrite (proj2 (String.eqb_neq text "")) by done.
  rewrite Hcmd, (proj2 (Z.eqb_neq u 0)) by done. cbn [orb].
  split.
  - intros Htrust Hadmin. rewrite Htrust.
    by rewrite (proj2 (Z.eqb_neq u adminId)).
  - intros Hallowed.
    assert (isTrusted u t || (u =? adminId) = true) as ->.
    { destruct Hallowed as [->| ->]; [done|].
      rewrite Z.eqb_refl. by destruct (isTrusted adminId t). }
    cbn [negb]. rewrite Hkey, (proj2 (String.eqb_neq k "")) by done.
    destruct (saveGenerated_keys now k rt gs w) as (Hkeys & Hv & Hp).
    split_and!; try done.
    + rewrite !count_by_keys, Hkeys, filter_app, length_app, filter_replicate_same.
      rewrite length_replicate. lia.
    + intros k' Hne.
      rewrite !count_by_keys, Hkeys, filter_app, length_app.
      rewrite filter_replicate_other by done. cbn. lia.
Qed.

(** X25. The delete button changes the store only for the admin; for the
    admin it removes at most one question, the one whose id [parseInt]
    reads between the first two colons of the data, together with its votes
    and progress rows; data whose id does not parse removes nothing. *)
Theorem deleteCallback_admin_only data fromId st :
  (fromId ≠ Some adminId → deleteCallback parseInt adminId data fromId st = st) ∧
  (deleteCallback parseInt adminId data fromId st = st ∨
   ∃ qid, fromId = Some adminId ∧
          deleteCallback parseInt adminId data fromId st = deleteQuestion qid st) ∧
  (∀ idText rest,
     ":"%char ∉ String.list_ascii_of_string idText →
     deleteCallback parseInt adminId ("del:" ++ idText ++ String ":" rest)
                    (Some adminId) st
       = match parseInt idText with
         | Some qid => deleteQuestion qid st
         | None => st
         end).
Proof.
  unfold deleteCallback. split_and!.
  - intros Hne. destruct (String.prefix _ _); [|done].
    by rewrite bool_decide_eq_false_2.
  - destruct (String.prefix _ _); [|by left].
    case_bool_decide; [|by left].
    destruct (_ !! 1%nat) as [part|]; [|by left].
    destruct (parseInt part) as [qid|]; [|by left].
    right. by exists qid.
  - intros idText rest Hid. rewrite prefix_append.
    rewrite bool_decide_eq_true_2 by done.
    change ("del:" ++ idText ++ String ":" rest)%string
      with ("del" ++ String ":" (idText ++ String ":" rest))%string.
    rewrite split_app by (by apply not_in_string_dec).
    by rewrite split_app.
Qed.
End Authorisation.

Lemma messageHandler_adds_witness :
  Catalog.getQuestionCount "Physics"
    (Bot.db (Handlers.messageHandler 1 (Some 7) (Some "Newton's laws")
               (Some sample_drafts) 1700000000 (λ _, false)
               (Accounts.setTrusted 7 true
                  (Accounts.setUserStudyKey 7 "Physics" Accounts.no_accounts))
               fresh_world)) = 5.
Proof.
  pose proof (messageHandler_adds 1 7 "Newton's laws" sample_drafts 1700000000
                (λ _, false)
                (Accounts.setTrusted 7 true
                   (Accounts.setUserStudyKey 7 "Physics" Accounts.no_accounts))
                fresh_world "Physics"
                ltac:(lia) ltac:(discriminate) eq_refl eq_refl
                ltac:(discriminate)) as H.
  cbv zeta in H. destruct H as [_ Hadds].
  destruct (Hadds (or_introl eq_refl)) as (Hcount & _).
  rewrite Hcount. reflexivity.
Defined.

(** ** Asking a question *)

Section AskingFacts.
Import Accounts Catalog Quiz Terms.
Variable show : Z → string.
Variable fromCharCode : Z → string.
Implicit Types (st : Store) (imgs : Images) (t : Tables) (k : string) (u : Z).

Lemma getRandomQuestion_found rnd now k u st q0 :
  q0 ∈ questions st → study_key q0 = k →
  ∃ q, q ∈ questions st ∧ study_key q = k ∧
       getRandomQuestion rnd now k u st
         = (Some q, mkStore (questions st) (seq st) (votes st)
                            (<[(u, id q) := now]> (user_progress st))).
Proof.
  intros Hq0 Hk0.
  destruct (select_question_Some rnd k u st q0 Hq0 Hk0) as (q & Hsel & Hq & Hk & _).
  exists q. split_and!; try done. unfold getRandomQuestion. by rewrite Hsel.
Qed.

Lemma getRandomQuestion_nothing rnd now k u st :
  (∀ q, q ∈ questions st → study_key q ≠ k) →
  getRandomQuestion rnd now k u st = (None, st).
Proof.
  intros Hno.
  assert (filter (λ q, study_key q = k) (questions st) = []) as Hrows.
  { destruct (filter _ _) as [|q rest] eqn:E; [done|].
    assert (q ∈ filter (λ q, study_key q = k) (questions st)) as Hin
      by (rewrite E; left).
    apply list_elem_of_filter in Hin as [Hk Hq]. by destruct (Hno q Hq). }
  destruct (key_rows_nil_unused k u st Hrows) as [Hun Hus].
  unfold getRandomQuestion, select_question. by rewrite Hun, Hus, Hrows.
Qed.

(** X26. For a known sender whose study key has a question,
    [sendRandomQuestion] serves a stored question of that key and records
    the exposure at the current time, also when nothing can be shown
    because rendering fails; questions and votes are not touched.  It
    reports a render error exactly when the question has no stored image
    and rendering throws; otherwise it sends a photo with the keyboard of
    the question, and the question has a stored image afterwards.  For an
    unknown sender or a key without questions nothing changes. *)
Theorem sendRandomQuestion_exposure rnd now rt u k t st imgs q0 :
  u ≠ 0 → getUserStudyKey u t = Some k → k ≠ "" →
  q0 ∈ questions st → study_key q0 = k →
  let r := sendRandomQuestion show fromCharCode rnd now rt (Some u) t st imgs in
  ∃ q, q ∈ questions st ∧ study_key q = k ∧
       (getRandomQuestion rnd now k u st).1 = Some q ∧
       user_progress r.1.2 = <[(u, id q) := now]> (user_progress st) ∧
       questions r.1.2 = questions st ∧ votes r.1.2 = votes st ∧
       (r.1.1 = RenderError ↔ imgs !! id q = None ∧ rt = true) ∧
       (r.1.1 = RenderError → r.2 = imgs) ∧
       (r.1.1 ≠ RenderError →
          ∃ img, r.1.1 = Photo img (questionKeyboard show fromCharCode q) ∧
                 r.2 !! id q = Some img ∧
                 ∀ i, i ≠ id q → r.2 !! i = imgs !! i) ∧
       sendRandomQuestion show fromCharCode rnd now rt None t st imgs
         = (NothingSent, st, imgs) ∧
       ∀ st0, (∀ q', q' ∈ questions st0 → study_key q' ≠ k) →
              sendRandomQuestion show fromCharCode rnd now rt (Some u) t st0 imgs
                = (NoQuestionsFound k, st0, imgs).
Proof.
  intros Hu Hkey Hk Hq0 Hk0 r. subst r.
  destruct (getRandomQuestion_found rnd now k u st q0 Hq0 Hk0) as (q & Hq & Hqk & Hget).
  exists q. unfold sendRandomQuestion.
  rewrite (proj2 (Z.eqb_neq u 0)) by done.
  rewrite Hkey, (proj2 (String.eqb_neq k "")) by done. rewrite Hget.
  split; [done|]. split; [done|]. split; [done|].
  assert (∀ st0, (∀ q', q' ∈ questions st0 → study_key q' ≠ k) →
            match getRandomQuestion rnd now k u st0 with
            | (None, st') => (NoQuestionsFound k, st', imgs)
            | (Some question, st') =>
                match imgs !! id question with
                | Some stored =>
                    (Photo stored (questionKeyboard show fromCharCode question),
                     st', imgs)
                | None =>
                    if rt then (RenderError, st', imgs)
                    else (Photo (question_text question, options question)
                                (questionKeyboard show fromCharCode question),
                          st', <[id question := (question_text question,
                                                  options question)]> imgs)
                end
            end = (NoQuestionsFound k, st0, imgs)) as Hnone.
  { intros st0 Hno. by rewrite getRandomQuestion_nothing. }
  destruct (imgs !! id q) as [stored|] eqn:Himg; [|destruct rt]; cbn [fst snd].
  - split_and!; try done.
    + split; [done|]. by intros [? _].
    + intros _. exists stored. by split_and!.
  - split_and!; try done.
  - split_and!; try done.
    + split; [done|]. by intros [_ ?].
    + intros _. eexists. split_and!; [done|apply lookup_insert_eq|].
      intros i Hi. by rewrite lookup_insert_ne.
Qed.

Lemma images_current_shown st st' imgs :
  (λ q, (id q, question_text q, options q)) <$> questions st'
    = (λ q, (id q, question_text q, options q)) <$> questions st →
  seq st' = seq st →
  images_current st imgs → images_current st' imgs.
Proof.
  intros Hshown Hseq [Himg Hnd Hbound Hibound].
  assert (∀ q', q' ∈ questions st' →
            ∃ q, q ∈ questions st ∧ id q = id q' ∧
                 question_text q = question_text q' ∧ options q = options q')
    as Hsame.
  { intros q' Hq'.
    assert ((id q', question_text q', options q')
              ∈ (λ q, (id q, question_text q, options q)) <$> questions st) as Hin.
    { rewrite <- Hshown. apply list_elem_of_fmap. eauto. }
    apply list_elem_of_fmap in Hin as (q & Heq & Hq). exists q. by simplify_eq. }
  split.
  - intros q' img Hq' Hi. destruct (Hsame q' Hq') as (q & Hq & Hid & Ht & Ho).
    rewrite <- Hid in Hi. rewrite (Himg q img Hq Hi). by rewrite Ht, Ho.
  - assert (∀ qs : list Question,
              id <$> qs
                = (λ p : Z * string * list string, p.1.1)
                    <$> ((λ q, (id q, question_text q, options q)) <$> qs)) as Hids.
    { intros qs. rewrite <- list_fmap_compose. done. }
    by rewrite Hids, Hshown, <- Hids.
  - intros q' Hq'. destruct (Hsame q' Hq') as (q & Hq & Hid & _).
    rewrite Hseq, <- Hid. by apply Hbound.
  - intros i Hi. rewrite Hseq. by apply Hibound.
Qed.

Lemma images_current_fewer st st' imgs imgs' :
  questions st' `sublist_of` questions st → seq st' = seq st → imgs' ⊆ imgs →
  images_current st imgs → images_current st' imgs'.
Proof.
  intros Hsub Hseq Himgs [Himg Hnd Hbound Hibound]. split.
  - intros q img Hq Hi. apply (Himg q img).
    + by apply (sublist_subseteq _ _ Hsub).
    + by apply (lookup_weaken _ _ _ _ Hi).
  - eapply sublist_NoDup; [done|]. by apply fmap_sublist.
  - intros q Hq. rewrite Hseq. apply Hbound. by apply (sublist_subseteq _ _ Hsub).
  - intros i [img Hi]. rewrite Hseq. apply Hibound. exists img.
    by apply (lookup_weaken _ _ _ _ Hi).
Qed.

Lemma images_current_insert st imgs q :
  q ∈ questions st → images_current st imgs →
  images_current st (<[id q := (question_text q, options q)]> imgs).
Proof.
  intros Hq [Himg Hnd Hbound Hibound]. split; try done.
  - intros q' img Hq' Hi. destruct (decide (id q' = id q)) as [Hid|Hne].
    + rewrite Hid, lookup_insert_eq in Hi.
      assert (q' = q) as -> by (by eapply distinct_ids). by simplify_eq.
    + rewrite lookup_insert_ne in Hi by done. by apply Himg.
  - intros i [img Hi]. destruct (decide (i = id q)) as [->|Hne].
    + by apply Hbound.
    + rewrite lookup_insert_ne in Hi by done. apply Hibound. eauto.
Qed.

Lemma buttons_of_imap {A} (f : nat → A → string * string) (g : nat → bool)
    (l : list A) :
  buttons_of (concat (imap (λ i x, Text (f i x).1 (f i x).2
                                   :: (if g i then [Row] else [])) l))
    = imap f l.
Proof.
  revert f g. induction l as [|x l IH]; intros f g; [done|].
  cbn. destruct (f 0%nat x) as [label data] eqn:E. cbn. f_equal.
  specialize (IH (f ∘ S) (g ∘ S)).
  destruct (g 0%nat); cbn; exact IH.
Qed.

Lemma buttons_of_questionKeyboard q :
  buttons_of (questionKeyboard show fromCharCode q)
    = imap (λ idx (_ : string),
              (fromCharCode (65 + Z.of_nat idx),
               answerData show (id q) (correct_index q) (Z.of_nat idx)))
           (options q).
Proof.
  unfold questionKeyboard.
  apply (buttons_of_imap
           (λ idx (_ : string),
              (fromCharCode (65 + Z.of_nat idx),
               answerData show (id q) (correct_index q) (Z.of_nat idx)))
           (λ idx, (Z.of_nat idx + 1) mod 4 =? 0)).
Qed.

(** X27. When the stored images are current, the photo that
    [sendRandomQuestion] sends, stored or rendered on the spot, shows the
    text and the options that the served question has in the store, and
    its keyboard has one button per option shown, the button at position
    [idx] carrying the question's id, its correct index and [idx]; the
    stored images are current afterwards. *)
Theorem shown_image_current rnd now rt userId t st imgs :
  images_current st imgs →
  let r := sendRandomQuestion show fromCharCode rnd now rt userId t st imgs in
  images_current r.1.2 r.2 ∧
  ∀ img kb, r.1.1 = Photo img kb →
    ∃ q, q ∈ questions st ∧
         img = (question_text q, options q) ∧
         kb = questionKeyboard show fromCharCode q ∧
         buttons_of kb
           = imap (λ idx (_ : string),
                     (fromCharCode (65 + Z.of_nat idx),
                      answerData show (id q) (correct_index q) (Z.of_nat idx)))
                  img.2.
Proof.
  intros Hcur r. subst r. unfold sendRandomQuestion.
  destruct userId as [u|]; [|by split].
  destruct (u =? 0); [by split|].
  destruct (getUserStudyKey u t) as [k|]; [|by split].
  destruct (String.eqb k ""); [by split|].
  pose proof (getRandomQuestion_stored rnd now k u st) as Hstored.
  pose proof (getRandomQuestion_questions k u st rnd now) as Hqs.
  assert (seq (getRandomQuestion rnd now k u st).2 = seq st) as Hseq.
  { unfold getRandomQuestion. by destruct (select_question _ _ _ _). }
  destruct (getRandomQuestion rnd now k u st) as [[q|] st']; cbn [fst snd] in *.
  2:{ split; [|done]. apply (images_current_shown st); [by rewrite Hqs|done..]. }
  destruct (Hstored q eq_refl) as [Hq _].
  assert (images_current st' imgs) as Hcur'
    by (apply (images_current_shown st); [by rewrite Hqs|done..]).
  destruct (imgs !! id q) as [stored|] eqn:Himg; [|destruct rt]; cbn [fst snd].
  - split; [done|]. intros img kb [= <- <-]. exists q.
    rewrite (current_image _ _ Hcur q stored Hq Himg).
    split_and!; try done. apply buttons_of_questionKeyboard.
  - by split.
  - split.
    + apply images_current_insert; [by rewrite Hqs|done].
    + intros img kb [= <- <-]. exists q.
      split_and!; try done. apply buttons_of_questionKeyboard.
Qed.

Lemma images_current_save now k txt opts ci st imgs :
  images_current st imgs →
  let st' := (saveQuestion now k txt opts ci st).2 in
  let qid := (saveQuestion now k txt opts ci st).1 in
  images_current st' imgs ∧ images_current st' (<[qid := (txt, opts)]> imgs).
Proof.
  intros [Himg Hnd Hbound Hibound]. cbn.
  assert (∀ q, q ∈ questions st → id q ≠ seq st + 1) as Hfresh.
  { intros q Hq. specialize (Hbound q Hq). lia. }
  assert (imgs !! (seq st + 1) = None) as Hnone.
  { destruct (imgs !! (seq st + 1)) eqn:E; [|done].
    assert (seq st + 1 ≤ seq st) by (apply Hibound; eauto). lia. }
  assert (NoDup (id <$> questions st
                   ++ [mkQuestion (seq st + 1) k txt opts ci now 0 0])) as Hnd'.
  { rewrite fmap_app. apply NoDup_app. split_and!; [done| |by apply NoDup_singleton].
    intros x (q & -> & Hq)%list_elem_of_fmap Heq%list_elem_of_singleton.
    by apply (Hfresh q). }
  split; split; cbn [questions seq]; try done.
  - intros q img [Hq| ->%list_elem_of_singleton]%elem_of_app Hi.
    + by apply Himg.
    + cbn in Hi. congruence.
  - intros q [Hq| ->%list_elem_of_singleton]%elem_of_app; [|cbn; lia].
    specialize (Hbound q Hq). lia.
  - intros i Hi. specialize (Hibound i Hi). lia.
  - intros q img [Hq| ->%list_elem_of_singleton]%elem_of_app Hi.
    + rewrite lookup_insert_ne in Hi by (by apply not_eq_sym, Hfresh).
      by apply Himg.
    + cbn in Hi. rewrite lookup_insert_eq in Hi. by simplify_eq.
  - intros q [Hq| ->%list_elem_of_singleton]%elem_of_app; [|cbn; lia].
    specialize (Hbound q Hq). lia.
  - intros i [img Hi]. destruct (decide (i = seq st + 1)) as [->|Hne]; [lia|].
    rewrite lookup_insert_ne in Hi by done.
    assert (i ≤ seq st) by (apply Hibound; eauto). lia.
Qed.
End AskingFacts.

(** ** Stored images stay current *)

Section CurrentImages.
Import Bot Terms.
Implicit Types (st : Store) (imgs : Quiz.Images) (w : World).

Lemma update_counts_shown qid f (qs : list Question) :
  (∀ q, (id (f q), question_text (f q), options (f q))
        = (id q, question_text q, options q)) →
  (λ q, (id q, question_text q, options q)) <$> update_id qid f qs
    = (λ q, (id q, question_text q, options q)) <$> qs.
Proof.
  intros Hf. unfold update_id. induction qs as [|q qs IH]; [done|].
  cbn. rewrite <- IH. f_equal. by destruct (has_id qid q).
Qed.

Lemma images_current_addVote u qid p st imgs :
  images_current st imgs → images_current (addVote u qid p st) imgs.
Proof.
  intros Hcur. apply (images_current_shown st); [| |done].
  2:{ unfold addVote.
      by destruct (votes st !! (u, qid)); [destruct (decide _)|]. }
  unfold addVote. destruct (votes st !! (u, qid)); [destruct (decide _); [done|]|];
    cbn [questions]; apply update_counts_shown; intros q; by destruct p.
Qed.

Lemma images_current_saveGenerated now k rt gs : ∀ w,
  images_current (db w) (images w) →
  images_current (db (saveGenerated now k rt gs w))
                 (images (saveGenerated now k rt gs w)).
Proof.
  unfold saveGenerated. induction gs as [|g gs IH]; intros w Hcur; [done|].
  cbn [foldl]. apply IH.
  pose proof (images_current_save now k (Ai.question g) (Ai.options g)
                (Ai.correct_index g) (db w) (images w) Hcur) as Hsave.
  cbv zeta in Hsave. destruct Hsave as [Hkeep Hadd].
  destruct (saveQuestion now k _ _ _ (db w)) as [qid st'] eqn:E.
  cbn [fst snd] in *. by destruct (rt qid).
Qed.

Lemma shuffleQuestion_current c q w :
  render_throws c = false →
  fixed_part q ∈ fixed_part <$> questions (db w) →
  images_current (db w) (images w) →
  images_current (db (shuffleQuestion c q w).2) (images (shuffleQuestion c q w).2).
Proof.
  intros Hrender Hin Hcur. unfold shuffleQuestion.
  destruct (_ =? -1); [done|]. destruct (update_throws c); [done|].
  rewrite Hrender. cbn [snd db images].
  apply list_elem_of_fmap in Hin as (q1 & Hfixed & Hq1).
  assert (id q1 = id q ∧ question_text q1 = question_text q) as [Hid Htext]
    by (unfold fixed_part in Hfixed; by simplify_eq).
  destruct Hcur as [Himg Hnd Hbound Hibound].
  unfold updateQuestionOptions, set_questions. split; cbn [questions seq].
  - intros q' img Hq' Hi.
    apply elem_of_update_id in Hq' as (q0 & Hq0 & ->).
    destruct (has_id (id q) q0) eqn:Hhas.
    + apply has_id_true in Hhas. cbn in Hi. rewrite Hhas, lookup_insert_eq in Hi.
      assert (q0 = q1) as -> by (eapply distinct_ids; [done..|congruence]).
      cbn. rewrite Htext. by injection Hi.
    + apply has_id_false in Hhas. rewrite lookup_insert_ne in Hi by done.
      by apply Himg.
  - by rewrite update_id_ids.
  - intros q' Hq'. apply elem_of_update_id in Hq' as (q0 & Hq0 & ->).
    destruct (has_id (id q) q0); cbn; by apply Hbound.
  - intros i [img Hi]. destruct (decide (i = id q)) as [->|Hne].
    + rewrite <- Hid. by apply Hbound.
    + rewrite lookup_insert_ne in Hi by done. apply Hibound. eauto.
Qed.

Lemma shuffleLoop_current chance l : ∀ w,
  (∀ qid, render_throws (chance qid) = false) →
  (∀ q, q ∈ l → fixed_part q ∈ fixed_part <$> questions (db w)) →
  images_current (db w) (images w) →
  images_current (db (shuffleLoop chance l w).2) (images (shuffleLoop chance l w).2).
Proof.
  induction l as [|q l IH]; intros w Hrender Hl Hcur; [done|]. cbn.
  pose proof (shuffleQuestion_current (chance (id q)) q w (Hrender _)
                (Hl q ltac:(left)) Hcur) as Hstep.
  pose proof (shuffleQuestion_frame (chance (id q)) q w) as Hframe.
  destruct (shuffleQuestion _ q w) as [[] w1]; cbn [snd] in *; [|done].
  apply IH; [done| |done].
  intros q' Hq'. destruct Hframe as [-> _]. apply Hl. by right.
Qed.

(** X28. Stored images stay current along the operations of the bot: a
    vote, the deletion of a question (with or without its image), the
    clearing of a study key, the save loop of the message handler with or
    without render failures, and the answer-shuffle batch provided no
    render fails in it.  They are current in the empty store. *)
Theorem images_current_kept st imgs :
  images_current st imgs →
  (∀ u qid up, images_current (addVote u qid up st) imgs) ∧
  (∀ qid, images_current (deleteQuestion qid st) imgs ∧
          images_current (deleteQuestion qid st) (delete qid imgs)) ∧
  (∀ k, images_current (clearQuestions k st) imgs) ∧
  (∀ now k rt gs log,
     let w' := saveGenerated now k rt gs (mkWorld st imgs log) in
     images_current (db w') (images w')) ∧
  (∀ enabled chance log,
     (∀ qid, render_throws (chance qid) = false) →
     let w' := cleanRightAnswers enabled chance (mkWorld st imgs log) in
     images_current (db w') (images w')) ∧
  images_current Db.empty ∅.
Proof.
  intros Hcur. split_and!.
  - intros u qid up. by apply images_current_addVote.
  - intros qid. split.
    + by apply (images_current_fewer st _ imgs); [apply sublist_filter|..].
    + apply (images_current_fewer st _ imgs);
        [apply sublist_filter|done|apply delete_subseteq|done].
  - intros k. by apply (images_current_fewer st _ imgs); [apply sublist_filter|..].
  - intros now k rt gs log w'. by apply images_current_saveGenerated.
  - intros enabled chance log Hrender w'. subst w'.
    destruct enabled; [|done]. unfold cleanRightAnswers, outer_catch.
    pose proof (shuffleLoop_current chance (getAllQuestionsRaw st)
                  (mkWorld st imgs log) Hrender) as Hloop.
    cbn [db images] in Hloop.
    destruct (shuffleLoop _ _ _) as [[] w1]; cbn [snd db images] in *;
      apply Hloop; try done;
      intros q Hq; apply list_elem_of_fmap; eauto.
  - split; cbn.
    + intros q img Hq. by apply elem_of_nil in Hq.
    + apply NoDup_nil_2.
    + intros q Hq. by apply elem_of_nil in Hq.
    + intros i [img Hi]. by rewrite lookup_empty in Hi.
Qed.
End CurrentImages.

(** ** Judging an answer *)

Section AnswerFacts.
Import Accounts Handlers Quiz Terms.
Import Stdlib.Strings.Ascii.
Variable show : Z → string.
Variable fromCharCode : Z → string.
Variable parseInt : string → option Z.
Implicit Types (st : Store) (imgs : Images) (t : Tables).

Lemma split_answerData a b c :
  ":"%char ∉ String.list_ascii_of_string (show a) →
  ":"%char ∉ String.list_ascii_of_string (show b) →
  ":"%char ∉ String.list_ascii_of_string (show c) →
  split ":"%char (answerData show a b c) = ["q"; show a; show b; show c].
Proof.
  intros Ha Hb Hc. unfold answerData.
  change ("q:" ++ show a ++ ":" ++ show b ++ ":" ++ show c)%string
    with ("q" ++ String ":" (show a ++ String ":" (show b ++ String ":" (show c))))%string.
  rewrite split_app by (by apply not_in_string_dec).
  rewrite !split_app by done. by rewrite split_absent.
Qed.


Lemma kept_buttons_of data (rows : list (list InlineKeyboardButton)) :
  buttons_of (without_button data rows)
    = (λ btn, (text btn, data_or_ignore btn))
        <$> filter (λ btn, callback_data btn ≠ Some data) (concat rows).
Proof.
  unfold without_button. induction rows as [|buttons rows IH]; [done|].
  cbn [map concat]. unfold buttons_of in *.
  rewrite omap_app, IH, filter_app, fmap_app. f_equal.
  generalize (filter (λ btn, callback_data btn ≠ Some data) buttons).
  intros kept.
  assert (omap (λ c, match c with
                     | Text label d => Some (label, d)
                     | Row => None
                     end)
               (map (λ btn, Text (text btn) (data_or_ignore btn)) kept)
          = (λ btn, (text btn, data_or_ignore btn)) <$> kept) as Htexts.
  { induction kept as [|b kept IHk]; [done|]. cbn. by rewrite <- IHk. }
  destruct kept as [|b kept]; [done|].
  cbn [length Nat.ltb Nat.leb]. by rewrite <- Htexts.
Qed.

Lemma no_empty_row data (rows : list (list InlineKeyboardButton)) i :
  without_button data rows !! i = Some Row →
  ∃ label d, without_button data rows !! S i = Some (Text label d).
Proof.
  unfold without_button. revert i.
  induction rows as [|buttons rows IH]; intros i; [done|].
  cbn [map concat]. revert IH.
  generalize (concat
    (map (λ buttons,
            if (0 <? length (filter (λ btn, callback_data btn ≠ Some data)
                                    buttons))%nat
            then Row :: map (λ btn, Text (text btn) (data_or_ignore btn))
                            (filter (λ btn, callback_data btn ≠ Some data) buttons)
            else []) rows)).
  intros rest IH.
  destruct (filter _ buttons) as [|b kept] eqn:E; [apply IH|].
  cbn [length Nat.ltb Nat.leb].
  destruct i as [|j]; [intros _; by eexists _, _|].
  generalize (b :: kept). intros btns.
  rewrite <- app_comm_cons. rewrite !lookup_cons_ne_0 by done. cbn [pred].
  intros Hj. apply lookup_app_Some in Hj as [Hj|[Hlen Hj]].
  - change (map ?f ?l) with (f <$> l) in Hj.
    rewrite list_lookup_fmap in Hj. by destruct (btns !! j).
  - destruct (IH _ Hj) as (label & d & Hnext). exists label, d.
    rewrite lookup_app_r by lia.
    by replace (S j - length (map (λ btn, Text (text btn) (data_or_ignore btn)) btns))%nat
      with (S (j - length (map (λ btn, Text (text btn) (data_or_ignore btn)) btns)))
      by lia.
Qed.

(** X30. Whatever the data, the answer branch takes an answer for correct
    only when the data has four parts, the first being [q], whose last two
    parts [parseInt] reads as the same number; in every other case the
    store and the images are left as they are.  The keyboard sent after a
    wrong answer has the buttons of the old one in their order, without
    those carrying the clicked data; it starts no row that has no button,
    and no button of it carries the clicked data. *)
Theorem wrong_answer_keeps_rest data message fromId rnd now rt t st imgs :
  let r := answerCallback show fromCharCode parseInt data message fromId
                          rnd now rt t st imgs in
  (∀ letter rating next, r.1.1 = Correct letter rating next →
     ∃ p1 p2 p3 n, split ":"%char data = ["q"; p1; p2; p3] ∧
                   parseInt p2 = Some n ∧ parseInt p3 = Some n ∧
                   message ≠ None) ∧
  ((∀ letter rating next, r.1.1 ≠ Correct letter rating next) →
     r.1.2 = st ∧ r.2 = imgs) ∧
  (∀ kb, r.1.1 = Incorrect kb →
     ∃ rows, message = Some rows ∧ kb = without_button data <$> rows) ∧
  (∀ rows,
     buttons_of (without_button data rows)
       = (λ btn, (text btn, data_or_ignore btn))
           <$> filter (λ btn, callback_data btn ≠ Some data) (concat rows) ∧
     (∀ i, without_button data rows !! i = Some Row →
           ∃ label d, without_button data rows !! S i = Some (Text label d)) ∧
     (∀ kb label, r.1.1 = Incorrect kb →
                  (label, data) ∉ buttons_of (without_button data rows))).
Proof.
  intros r. subst r. unfold answerCallback.
  assert (∀ rows label, data ≠ "ignore" →
            (label, data) ∉ buttons_of (without_button data rows)) as Habsent.
  { intros rows label Hdata. rewrite kept_buttons_of.
    intros (btn & Heq & Hbtn)%list_elem_of_fmap.
    apply list_elem_of_filter in Hbtn as [Hkeep _].
    injection Heq as _ Heq. unfold data_or_ignore in Heq.
    destruct (callback_data btn) as [d|]; [|done].
    destruct (String.eqb d "") eqn:Ed; [done|]. by subst d. }
  assert (∀ rows, buttons_of (without_button data rows)
            = (λ btn, (text btn, data_or_ignore btn))
                <$> filter (λ btn, callback_data btn ≠ Some data) (concat rows) ∧
          (∀ i, without_button data rows !! i = Some Row →
                ∃ label d, without_button data rows !! S i = Some (Text label d)))
    as Hrebuilt.
  { intros rows. split; [apply kept_buttons_of|apply no_empty_row]. }
  destruct (split ":"%char data) as [|p0 [|p1 [|p2 [|p3 [|p4 more]]]]] eqn:Hsplit;
    try (split_and!; [done|done|done|];
         intros rows; destruct (Hrebuilt rows); by split_and!).
  destruct (String.eqb p0 "q") eqn:Hq;
    [|split_and!; [done|done|done|];
      intros rows; destruct (Hrebuilt rows); by split_and!].
  apply String.eqb_eq in Hq as ->.
  assert (data ≠ "ignore") as Hdata.
  { intros ->. by vm_compute in Hsplit. }
  destruct message as [currentKeyboard|];
    [|split_and!; [done|done|done|];
      intros rows; destruct (Hrebuilt rows); by split_and!].
  destruct (same_number (parseInt p3) (parseInt p2)) eqn:Hsame.
  - destruct (sendRandomQuestion _ _ _ _ _ _ _ _ _) as [[sent st'] imgs'].
    cbn [fst snd]. split_and!.
    + intros letter rating next _. unfold same_number in Hsame.
      destruct (parseInt p3) as [x|] eqn:E3, (parseInt p2) as [y|] eqn:E2;
        try done.
      apply Z.eqb_eq in Hsame as ->. by exists p1, p2, p3, y.
    + intros Hnot. by destruct (Hnot _ _ _ eq_refl).
    + done.
    + intros rows. destruct (Hrebuilt rows). by split_and!.
  - cbn [fst snd]. split_and!; try done.
    + intros kb [= <-]. by exists currentKeyboard.
    + intros rows. destruct (Hrebuilt rows). split_and!; try done.
      intros kb label _. by apply Habsent.
Qed.
End AnswerFacts.

Lemma fresh_store_images_current : Terms.images_current fresh_store ∅.
Proof.
  split.
  - intros q img _ Hi. by rewrite lookup_empty in Hi.
  - apply (bool_decide_unpack _). vm_compute. exact I.
  - intros q Hq. cbn in Hq.
    repeat (apply elem_of_cons in Hq as [->|Hq]; [cbn; lia|]).
    by apply elem_of_nil in Hq.
  - intros i [img Hi]. by rewrite lookup_empty in Hi.
Qed.

Lemma sendRandomQuestion_exposure_witness :
  ∃ q, (getRandomQuestion (λ _, 0) 50 "Physics" 7 fresh_store).1 = Some q ∧
       user_progress
         (Quiz.sendRandomQuestion sample_show sample_fromCharCode (λ _, 0) 50 true
            (Some 7) (Accounts.setUserStudyKey 7 "Physics" Accounts.no_accounts)
            fresh_store ∅).1.2
       = <[(7, id q) := 50]> (user_progress fresh_store).
Proof.
  pose proof (sendRandomQuestion_exposure sample_show sample_fromCharCode
                (λ _, 0) 50 true 7 "Physics"
                (Accounts.setUserStudyKey 7 "Physics" Accounts.no_accounts)
                fresh_store ∅ question_A
                ltac:(lia) eq_refl ltac:(discriminate)
                ltac:(left) eq_refl) as H.
  cbv zeta in H. destruct H as (q & _ & _ & Hget & Hprogress & _).
  exists q. split; [exact Hget|exact Hprogress].
Defined.

Lemma shown_image_current_witness :
  Terms.images_current
    (Quiz.sendRandomQuestion sample_show sample_fromCharCode (λ _, 0) 50 false
       (Some 7) (Accounts.setUserStudyKey 7 "Physics" Accounts.no_accounts)
       fresh_store ∅).1.2
    (Quiz.sendRandomQuestion sample_show sample_fromCharCode (λ _, 0) 50 false
       (Some 7) (Accounts.setUserStudyKey 7 "Physics" Accounts.no_accounts)
       fresh_store ∅).2.
Proof.
  apply (shown_image_current sample_show sample_fromCharCode (λ _, 0) 50 false
           (Some 7) (Accounts.setUserStudyKey 7 "Physics" Accounts.no_accounts)
           fresh_store ∅ fresh_store_images_current).
Defined.

Example sendRandomQuestion_fresh_store :
  (Quiz.sendRandomQuestion sample_show sample_fromCharCode (λ _, 0) 50 false
     (Some 7) (Accounts.setUserStudyKey 7 "Physics" Accounts.no_accounts)
     fresh_store ∅).1.1
  = Quiz.Photo ("B", ["b1"; "b2"; "b3"])
      [Quiz.Text "A" "q:2:1:0"; Quiz.Text "B" "q:2:1:1"; Quiz.Text "C" "q:2:1:2"].
Proof. by vm_compute. Qed.

Lemma images_current_kept_witness :
  Terms.images_current (deleteQuestion 2 (addVote 7 1 true fresh_store)) ∅.
Proof.
  apply (images_current_kept (addVote 7 1 true fresh_store) ∅).
  apply (images_current_kept fresh_store ∅ fresh_store_images_current).
Defined.

